(** * Standalone initialisation of the Actions runtime: model and properties

    A shallow embedding of [pkg/standalone/standalone.go].  Strings are byte
    strings, Go's [error] values are an inductive type with [nil] as [None],
    functions that touch the host are state-passing functions on a [World],
    and the goroutines of [Init] are a labelled transition system over an
    unbuffered channel. *)

From stdpp Require Import gmap strings list fin_maps pretty.
From Stdlib Require Import ZArith Ascii.

Local Open Scope Z_scope.

(** ** Strings: the functions of package [strings] that the code calls *)

(** [strings.HasPrefix]. *)
Fixpoint HasPrefix (s prefix : string) {struct prefix} : bool :=
  match prefix, s with
  | EmptyString, _ => true
  | String _ _, EmptyString => false
  | String c prefix', String d s' =>
      if Ascii.eqb c d then HasPrefix s' prefix' else false
  end.

(** [strings.Contains]: [substr] occurs in [s]. *)
Fixpoint Contains (s substr : string) : bool :=
  HasPrefix s substr ||
  match s with
  | EmptyString => false
  | String _ s' => Contains s' substr
  end.

(** Lower-casing of one byte: ['A'..'Z'] move to ['a'..'z']. *)
Definition lower_byte (c : ascii) : ascii :=
  let n := N_of_ascii c in
  if ((65 <=? n) && (n <=? 90))%N then ascii_of_N (n + 32) else c.

(** [strings.ToLower], byte by byte.  This is Go's result on every string
    of bytes below 128.  A string with other bytes Go lower-cases rune by
    rune with its Unicode tables: its bytes below 128 are each a rune of
    their own and are mapped as here, so a run of such bytes that is found
    in the lower-cased string here is found in Go's too. *)
Fixpoint ToLower (s : string) : string :=
  match s with
  | EmptyString => EmptyString
  | String c s' => String (lower_byte c) (ToLower s')
  end.

(** [strings.Split(s, sep)] for a one-byte separator: the pieces of [s]
    between the separators, never an empty slice. *)
Fixpoint Split (s : string) (sep : ascii) : list string :=
  match s with
  | EmptyString => [EmptyString]
  | String c s' =>
      if Ascii.eqb c sep then EmptyString :: Split s' sep
      else match Split s' sep with
           | tok :: toks => String c tok :: toks
           | [] => [String c EmptyString]
           end
  end.

(** ** Errors *)

(** Error numbers of the host that the code can meet. *)
Inductive Errno :=
| ENOENT | EACCES | ENOTDIR | ELOOP | ENAMETOOLONG | EIO
| ENOSPC | EISDIR | EROFS | EEXIST | ENOTEMPTY.

(** Go [error] values.  [nil] is [None] of [option error]. *)
Inductive error :=
| ExitError (exitCode : Z) (msg : string)
    (* *exec.ExitError: the command ran and exited unsuccessfully *)
| SysError (errno : Errno) (msg : string)
    (* *os.PathError and friends: a system call failed with [errno] *)
| ForeignError (msg : string)
    (* any other error made outside this package: *exec.Error when the
       process could not be started, net/http and archive/zip errors *)
| errorString (msg : string).
    (* made by fmt.Errorf in this package *)

(** What a task sends on the outcome channel. *)
Abbreviation outcome := (option error).

(** The [Error()] method. *)
Definition Error (e : error) : string :=
  match e with
  | ExitError _ msg => msg
  | SysError _ msg => msg
  | ForeignError msg => msg
  | errorString msg => msg
  end.

(** [os.IsExist]: the error reports that a file or directory already
    exists. *)
Definition IsExist (err : option error) : bool :=
  match err with
  | Some (SysError EEXIST _) => true
  | Some (SysError ENOTEMPTY _) => true
  | _ => false
  end.

(** ** Classification of container-runtime failures *)

Definition parseDockerError (component : string) (err : error) : error :=
  match err with
  | ExitError exitCode _ =>
      if exitCode =? 125 then
        errorString ("Failed to launch " +:+ component +:+ ". Is it already running?")
      else if exitCode =? 127 then
        errorString ("Failed to launch " +:+ component +:+
                     ". Make sure Docker is installed and running")
      else err
  | _ => err
  end.

Definition isContainerRunError (err : error) : bool :=
  match err with
  | ExitError exitCode _ => exitCode =? 125
  | _ => false
  end.

(** ** The host

    Everything outside the program is a [World]: the files on disk, the
    answers of the network, of the container runtime and of the operating
    system, and a log of the calls the program has issued. *)

(** File-system calls that can fail for reasons of the host. *)
Inductive Op :=
| OpOpenFile | OpWrite | OpReadFile | OpWriteFile | OpChmod | OpMkdirAll.

(** The failures of stat(2) other than a missing file. *)
Inductive StatFault :=
| StatEACCES | StatENOTDIR | StatELOOP | StatENAMETOOLONG | StatEIO.

Definition errno_of_StatFault (f : StatFault) : Errno :=
  match f with
  | StatEACCES => EACCES
  | StatENOTDIR => ENOTDIR
  | StatELOOP => ELOOP
  | StatENAMETOOLONG => ENAMETOOLONG
  | StatEIO => EIO
  end.

(** An [*http.Response]: the bytes its body yields and the error, if any,
    that ends the stream. *)
Record Response := { Body : string; BodyErr : option error }.

(** A [*zip.File]: name and mode from the header, whether [Open] succeeds,
    the bytes the opened entry yields and the error that ends them. *)
Record ZipFile := {
  Name : string;
  Mode : N;
  OpenErr : option error;
  Data : string;
  ReadErr : option error
}.

(** Calls that act on the host, with their arguments. *)
Inductive Event :=
| EvRunCmd (name : string) (arg : list string)
| EvHttpGet (url : string)
| EvMkdirAll (path : string) (perm : N)
| EvOpenFile (path : string) (perm : N)
| EvWriteFile (path : string) (perm : N)
| EvChmod (path : string) (perm : N).

Record World := {
  GOOS : string;                                  (* runtime.GOOS *)
  GOARCH : string;                                (* runtime.GOARCH *)
  PATH : string;                                  (* os.Getenv("PATH") *)
  HomeDir : error + string;                       (* user.Current().HomeDir *)
  files : gmap string string;                     (* path to content *)
  modes : gmap string N;                          (* path to permission bits *)
  umask : N;                                      (* the process's umask *)
  stat_fault : string -> option StatFault;
  fault : Op -> string -> option error;
  http_response : string -> error + Response;
  cmd_exit : string -> list string -> option error;
  zip_entries : string -> error + list ZipFile;   (* archive/zip on a content *)
  log : list Event                                (* oldest call first *)
}.

Definition set_files (f : gmap string string) (w : World) : World :=
  {| GOOS := GOOS w; GOARCH := GOARCH w; PATH := PATH w; HomeDir := HomeDir w;
     files := f; modes := modes w; umask := umask w;
     stat_fault := stat_fault w; fault := fault w;
     http_response := http_response w; cmd_exit := cmd_exit w;
     zip_entries := zip_entries w; log := log w |}.

Definition set_modes (m : gmap string N) (w : World) : World :=
  {| GOOS := GOOS w; GOARCH := GOARCH w; PATH := PATH w; HomeDir := HomeDir w;
     files := files w; modes := m; umask := umask w;
     stat_fault := stat_fault w; fault := fault w;
     http_response := http_response w; cmd_exit := cmd_exit w;
     zip_entries := zip_entries w; log := log w |}.

Definition add_event (ev : Event) (w : World) : World :=
  {| GOOS := GOOS w; GOARCH := GOARCH w; PATH := PATH w; HomeDir := HomeDir w;
     files := files w; modes := modes w; umask := umask w;
     stat_fault := stat_fault w; fault := fault w;
     http_response := http_response w; cmd_exit := cmd_exit w;
     zip_entries := zip_entries w; log := log w ++ [ev] |}.

(** The modes after [open(2)] of [path] with [O_CREAT] and the permission
    [perm]: a file that is there keeps its mode, a file that is created gets
    [perm] less the bits of the umask. *)
Definition create_mode (path : string) (perm : N) (w : World) : gmap string N :=
  match files w !! path with
  | Some _ => modes w
  | None => <[path := N.ldiff perm (umask w)]> (modes w)
  end.

(** State passing over the world. *)
Definition M (A : Type) : Type := World -> A * World.

Definition ret {A} (a : A) : M A := fun w => (a, w).

Definition bind {A B} (m : M A) (k : A -> M B) : M B :=
  fun w => let (a, w') := m w in k a w'.

Notation "x <- m ;; k" := (bind m (fun x => k))
  (at level 20, m at level 99, k at level 200, only parsing).

Definition ask {A} (field : World -> A) : M A := fun w => (field w, w).

(** *** Calls into the host *)

Definition os_Stat (path : string) : M (option error) := fun w =>
  match stat_fault w path with
  | Some f => (Some (SysError (errno_of_StatFault f) ("stat " +:+ path)), w)
  | None =>
      match files w !! path with
      | Some _ => (None, w)
      | None => (Some (SysError ENOENT ("stat " +:+ path)), w)
      end
  end.

Definition http_Get (url : string) : M (error + Response) := fun w =>
  (http_response w url, add_event (EvHttpGet url) w).

(** [os.OpenFile(path, os.O_WRONLY|os.O_CREATE|os.O_TRUNC, perm)]: the file
    is there and empty afterwards, with the mode [create_mode] gives it. *)
Definition os_OpenFile (path : string) (perm : N) : M (option error) := fun w =>
  let w' := add_event (EvOpenFile path perm) w in
  match fault w OpOpenFile path with
  | Some e => (Some e, w')
  | None =>
      (None,
       set_files (<[path := EmptyString]> (files w'))
         (set_modes (create_mode path perm w) w'))
  end.

(** [os.Create(path)] is [OpenFile(path, O_RDWR|O_CREATE|O_TRUNC, 0666)]. *)
Definition os_Create (path : string) : M (option error) :=
  os_OpenFile path 438%N.

(** [io.Copy] of a stream that yields [data] and then [eof] into the open
    file [path]. *)
Definition io_Copy (path : string) (data : string) (eof : option error)
  : M (option error) := fun w =>
  match fault w OpWrite path with
  | Some e => (Some e, w)
  | None => (eof, set_files (<[path := data]> (files w)) w)
  end.

Definition zip_OpenReader (path : string) : M (error + list ZipFile) := fun w =>
  match fault w OpReadFile path with
  | Some e => (inl e, w)
  | None =>
      match files w !! path with
      | Some content => (zip_entries w content, w)
      | None => (inl (SysError ENOENT ("open " +:+ path)), w)
      end
  end.

Definition ioutil_ReadFile (path : string) : M (string * option error) := fun w =>
  match fault w OpReadFile path with
  | Some e => ((EmptyString, Some e), w)
  | None =>
      match files w !! path with
      | Some content => ((content, None), w)
      | None => ((EmptyString, Some (SysError ENOENT ("open " +:+ path))), w)
      end
  end.

Definition ioutil_WriteFile (path data : string) (perm : N) : M (option error) :=
  fun w =>
  let w' := add_event (EvWriteFile path perm) w in
  match fault w OpWriteFile path with
  | Some e => (Some e, w')
  | None =>
      (None,
       set_files (<[path := data]> (files w'))
         (set_modes (create_mode path perm w) w'))
  end.

Definition os_Chmod (path : string) (perm : N) : M (option error) := fun w =>
  let w' := add_event (EvChmod path perm) w in
  match fault w OpChmod path with
  | Some e => (Some e, w')
  | None =>
      match files w !! path with
      | Some _ => (None, set_modes (<[path := perm]> (modes w')) w')
      | None => (Some (SysError ENOENT ("chmod " +:+ path)), w')
      end
  end.

Definition os_MkdirAll (path : string) (perm : N) : M (option error) := fun w =>
  (fault w OpMkdirAll path, add_event (EvMkdirAll path perm) w).

(** [exec.Command(name, arg...).Run()]. *)
Definition exec_Run (name : string) (arg : list string) : M (option error) :=
  fun w => (cmd_exit w name arg, add_event (EvRunCmd name arg) w).

Definition runCmd (name : string) (arg : list string) : M (option error) :=
  err <- exec_Run name arg ;;
  match err with
  | Some e => ret (Some e)
  | None => ret None
  end.

Definition is_windows (goos : string) : bool := String.eqb goos "windows".

(** ** The launcher tasks

    A task is run with the install directory and the version; its result is
    the list of values it sends on the outcome channel, in order.  The
    deferred [wg.Done()] runs when the task function returns, that is after
    its last send. *)

Definition baseDownloadURL : string :=
  "https://actionsreleases.blob.core.windows.net/release".
Definition actionsImageURL : string := "actionscore.azurecr.io/actions".

Definition runRedis (dir version : string) : M (list outcome) :=
  err <- runCmd "docker"
           ["run"; "--restart"; "always"; "-d"; "-p"; "6379:6379"; "redis"] ;;
  match err with
  | Some e =>
      let runError := isContainerRunError e in
      if negb runError then
        ret [Some (parseDockerError "Redis state store" e)]
      else ret [None]
  | None => ret [None]
  end.

Definition placement_args (goos version : string) : list string :=
  let osPort := if is_windows goos then 6050 else 50005 in
  let image := actionsImageURL +:+ ":" +:+ version in
  ["run"; "--restart"; "always"; "-d"; "-p"; pretty osPort +:+ ":50005";
   "--entrypoint"; "./placement"; image].

Definition runPlacementService (dir version : string) : M (list outcome) :=
  goos <- ask GOOS ;;
  err <- runCmd "docker" (placement_args goos version) ;;
  match err with
  | Some e =>
      let runError := isContainerRunError e in
      if negb runError then
        ret [Some (parseDockerError "placement service" e)]
      else ret [None]
  | None => ret [None]
  end.

(** ** The goroutines of [Init]

    [Init] starts one goroutine per step, a goroutine that closes the
    outcome channel once the wait group is at zero, and then ranges over the
    channel.  The channel is made without a buffer, so a send goes through
    only together with a receive, and [Init] is the only receiver.  The
    spinner and the status lines of [Init] act on the terminal only and are
    left out.

    A send on a closed channel and a [wg.Done()] at counter zero panic in
    Go; [step] has no such step, and in the runs of [Init] none is ever
    due: the counter is the number of tasks that have not returned, and the
    channel is closed only at zero ([inv] below). *)

Inductive task_state :=
| TRun (sends : list outcome)  (* started; [sends] are the values it has yet to send *)
| TDone.                       (* returned: the deferred wg.Done() has run *)

Inductive main_state :=
| MRecv                        (* in the range loop, receiving *)
| MRet (err : outcome).        (* [Init] has returned [err] *)

Record sched := {
  tasks : list task_state;
  wg : nat;                    (* the wait group's counter *)
  closed : bool;               (* close(errorChan) has run *)
  main : main_state;
  reads : list outcome         (* values received so far, oldest first *)
}.

Inductive action :=
| ASend (i : nat)              (* task [i] sends and the loop receives *)
| ADone (i : nat)              (* task [i] returns, wg.Done() *)
| AClose                       (* wg.Wait() returns, close(errorChan) *)
| ARecvClosed.                 (* the loop finds the channel closed *)

Definition step (a : action) (s : sched) : option sched :=
  match a with
  | ASend i =>
      match tasks s !! i, main s, closed s with
      | Some (TRun (v :: rest)), MRecv, false =>
          Some {| tasks := <[i := TRun rest]> (tasks s);
                  wg := wg s;
                  closed := closed s;
                  main := match v with
                          | Some err => MRet (Some err)
                          | None => MRecv
                          end;
                  reads := reads s ++ [v] |}
      | _, _, _ => None
      end
  | ADone i =>
      match tasks s !! i with
      | Some (TRun []) =>
          Some {| tasks := <[i := TDone]> (tasks s);
                  wg := Nat.pred (wg s);
                  closed := closed s;
                  main := main s;
                  reads := reads s |}
      | _ => None
      end
  | AClose =>
      match wg s, closed s with
      | O, false =>
          Some {| tasks := tasks s; wg := wg s; closed := true;
                  main := main s; reads := reads s |}
      | _, _ => None
      end
  | ARecvClosed =>
      match main s, closed s with
      | MRecv, true =>
          Some {| tasks := tasks s; wg := wg s; closed := closed s;
                  main := MRet None; reads := reads s |}
      | _, _ => None
      end
  end.

(** A run: the actions are taken in order, [None] when one is not enabled. *)
Fixpoint exec (acts : list action) (s : sched) : option sched :=
  match acts with
  | [] => Some s
  | a :: acts' =>
      match step a s with
      | Some s' => exec acts' s'
      | None => None
      end
  end.

(** The state in which [Init] enters its range loop: every step started,
    [wg.Add(len(initSteps))] done. *)
Definition spawn (progs : list (list outcome)) : sched :=
  {| tasks := TRun <$> progs; wg := length progs; closed := false;
     main := MRecv; reads := [] |}.

(** [spawn] for steps that send one outcome each. *)
Definition spawn1 (os : list outcome) : sched := spawn ((fun o => [o]) <$> os).

(** Task [t] has sent all it had to send. *)
Definition delivered (t : task_state) : bool :=
  match t with
  | TRun [] | TDone => true
  | TRun (_ :: _) => false
  end.

(** The number of actions a state may still take at most. *)
Definition task_fuel (t : task_state) : nat :=
  match t with
  | TRun l => S (length l)
  | TDone => 0
  end.

Definition fuel (s : sched) : nat :=
  sum_list (task_fuel <$> tasks s) +
  (if closed s then 0 else 1) +
  (match main s with MRecv => 1 | MRet _ => 0 end).

(** *** Bookkeeping on the goroutines *)

(** The steps of [step], one rule per action. *)
Inductive step_spec (s : sched) : action -> sched -> Prop :=
| step_send i v rest :
    tasks s !! i = Some (TRun (v :: rest)) ->
    main s = MRecv ->
    closed s = false ->
    step_spec s (ASend i)
      {| tasks := <[i := TRun rest]> (tasks s); wg := wg s; closed := false;
         main := match v with
                 | Some err => MRet (Some err)
                 | None => MRecv
                 end;
         reads := reads s ++ [v] |}
| step_done i :
    tasks s !! i = Some (TRun []) ->
    step_spec s (ADone i)
      {| tasks := <[i := TDone]> (tasks s); wg := Nat.pred (wg s);
         closed := closed s; main := main s; reads := reads s |}
| step_close :
    wg s = 0%nat ->
    closed s = false ->
    step_spec s AClose
      {| tasks := tasks s; wg := 0; closed := true; main := main s;
         reads := reads s |}
| step_recv_closed :
    main s = MRecv ->
    closed s = true ->
    step_spec s ARecvClosed
      {| tasks := tasks s; wg := wg s; closed := true; main := MRet None;
         reads := reads s |}.

(** 1 for a task that has not returned. *)
Definition live_n (t : task_state) : nat :=
  match t with
  | TRun _ => 1
  | TDone => 0
  end.

(** 1 for a task that has sent all it had to send. *)
Definition delivered_n (t : task_state) : nat :=
  if delivered t then 1 else 0.

(** What the range loop keeps true of the values it has received: none of
    them is an error while it runs or when it ends on the closed channel,
    and when it has returned an error, that error is the last value
    received and the only one that is not nil. *)
Definition reads_ok (s : sched) : Prop :=
  match main s with
  | MRet (Some err) =>
      exists pre, reads s = pre ++ [Some err] /\ Forall (eq None) pre
  | _ => Forall (eq None) (reads s)
  end.

(** What holds of every state of a run from [spawn1 os]. *)
Record inv (os : list outcome) (s : sched) : Prop := {
  inv_wg : wg s = sum_list (live_n <$> tasks s);
  inv_closed : closed s = true -> wg s = 0%nat;
  inv_ret_nil : main s = MRet None -> closed s = true;
  inv_len : length (tasks s) = length os;
  inv_tasks : forall i t,
    tasks s !! i = Some t ->
    exists o, os !! i = Some o /\
              (t = TRun [o] \/ (delivered t = true /\ o ∈ reads s));
  inv_count : length (reads s) = sum_list (delivered_n <$> tasks s);
  inv_reads : forall v, v ∈ reads s -> v ∈ os
}.

(** C9 as the specification words it: in every run, once [Init] has
    returned an error, every task can still run to completion. *)
Definition tasks_complete_after_error (os : list outcome) : Prop :=
  forall acts s err,
    exec acts (spawn1 os) = Some s ->
    main s = MRet (Some err) ->
    forall i, (i < length os)%nat ->
      exists acts' s', exec acts' s = Some s' /\ tasks s' !! i = Some TDone.

(** ** The binary installer *)

(** Go's [for _, x := range l { body }] where the body may [return]. *)
Inductive ctl (R : Type) :=
| Continue
| Return (r : R).
Arguments Continue {R}.
Arguments Return {R} r.

Fixpoint for_range {A R} (l : list A) (body : A -> M (ctl R)) : M (option R) :=
  match l with
  | [] => ret None
  | x :: l' =>
      c <- body x ;;
      match c with
      | Return r => ret (Some r)
      | Continue => for_range l' body
      end
  end.

Section Installer.

(** Path functions of Go's library, [path.Join], [filepath.Base] and
    [filepath.FromSlash]. *)
Variable path_Join : string -> string -> string.
Variable filepath_Base : string -> string.
Variable filepath_FromSlash : string -> string.

Definition getActionsDir : M (string * option error) :=
  goos <- ask GOOS ;;
  if is_windows goos then
    let p := filepath_FromSlash "c:/actions" in
    err <- os_MkdirAll p 448%N ;;
    match err with
    | Some e => ret (EmptyString, Some e)
    | None => ret (p, None)
    end
  else
    usr <- ask HomeDir ;;
    match usr with
    | inl e => ret (EmptyString, Some e)
    | inr home =>
        let p := path_Join home ".actions" in
        err <- os_MkdirAll p 448%N ;;
        match err with
        | Some e => ret (EmptyString, Some e)
        | None => ret (p, None)
        end
    end.

Definition makeExecutable (filepath : string) : M (option error) :=
  goos <- ask GOOS ;;
  if negb (is_windows goos) then
    err <- os_Chmod filepath 511%N ;;
    match err with
    | Some e => ret (Some e)
    | None => ret None
    end
  else ret None.

Definition extractFile (filepath targetDir : string) : M (string * option error) :=
  r <- zip_OpenReader filepath ;;
  match r with
  | inl e => ret (EmptyString, Some e)
  | inr zipReader_File =>
      r <- for_range zipReader_File (fun file =>
             match OpenErr file with
             | Some e => ret (Return (EmptyString, Some e))
             | None =>
                 let extractedFilePath := path_Join targetDir (Name file) in
                 err <- os_OpenFile extractedFilePath (Mode file) ;;
                 match err with
                 | Some e => ret (Return (EmptyString, Some e))
                 | None =>
                     err <- io_Copy extractedFilePath (Data file) (ReadErr file) ;;
                     match err with
                     | Some e => ret (Return (EmptyString, Some e))
                     | None => ret (Return (extractedFilePath, None))
                     end
                 end
             end) ;;
      match r with
      | Some res => ret res
      | None => ret (EmptyString, None)
      end
  end.

Definition moveFileToPath (filepath : string) : M (string * option error) :=
  let fileName := filepath_Base filepath in
  goos <- ask GOOS ;;
  if is_windows goos then
    p <- ask PATH ;;
    if negb (Contains (ToLower p) (ToLower "c:\actions")) then
      err <- runCmd "SETX" ["PATH"; p +:+ ";c:\actions"] ;;
      match err with
      | Some e => ret (EmptyString, Some e)
      | None => ret ("c:\actions\actionsrt.exe", None)
      end
    else ret ("c:\actions\actionsrt.exe", None)
  else
    let destFilePath := path_Join "/usr/local/bin" fileName in
    r <- ioutil_ReadFile filepath ;;
    match r with
    | (_, Some e) => ret (EmptyString, Some e)
    | (input, None) =>
        err <- ioutil_WriteFile destFilePath input 420%N ;;
        match err with
        | Some e => ret (EmptyString, Some e)
        | None => ret (destFilePath, None)
        end
    end.

Definition downloadFile (dir url : string) : M (string * option error) :=
  let tokens := Split url "/" in
  let fileName := default EmptyString (last tokens) in
  let filepath := path_Join dir fileName in
  err <- os_Stat filepath ;;
  if IsExist err then ret (EmptyString, None)
  else
    r <- http_Get url ;;
    match r with
    | inl e => ret (EmptyString, Some e)
    | inr resp =>
        err <- os_Create filepath ;;
        match err with
        | Some e => ret (EmptyString, Some e)
        | None =>
            err <- io_Copy filepath (Body resp) (BodyErr resp) ;;
            match err with
            | Some e => ret (EmptyString, Some e)
            | None => ret (filepath, None)
            end
        end
    end.

(** [fmt.Errorf(prefix + ": %s", err)]. *)
Definition Errorf (prefix : string) (err : error) : error :=
  errorString (prefix +:+ ": " +:+ Error err).

Definition actionsURL (version goos goarch : string) : string :=
  baseDownloadURL +:+ "/" +:+ version +:+ "/actionsrt_" +:+ goos +:+ "_" +:+
  goarch +:+ ".zip".

Definition installActionsBinary (dir version : string) : M (list outcome) :=
  goos <- ask GOOS ;;
  goarch <- ask GOARCH ;;
  r <- downloadFile dir (actionsURL version goos goarch) ;;
  match r with
  | (_, Some e) => ret [Some (Errorf "Error downloading actions binary" e)]
  | (filepath, None) =>
      r <- extractFile filepath dir ;;
      match r with
      | (_, Some e) => ret [Some (Errorf "Error extracting actions binary" e)]
      | (extractedFilePath, None) =>
          r <- moveFileToPath extractedFilePath ;;
          match r with
          | (_, Some e) =>
              ret [Some (Errorf "Error moving actions binary to path" e)]
          | (actionsPath, None) =>
              err <- makeExecutable actionsPath ;;
              match err with
              | Some e =>
                  ret [Some (Errorf "Error making actions binary executable" e)]
              | None => ret [None]
              end
          end
      end
  end.

(** The steps [Init] starts, in the order it appends them. *)
Definition initSteps : list (string -> string -> M (list outcome)) :=
  [installActionsBinary; runPlacementService; runRedis].

(** [Init] under a schedule of its goroutines: the error it returns, or
    [None] when the schedule is not one of its runs or ends before [Init]
    has returned.  The steps act on separate parts of the host, each is run
    on the world left by [getActionsDir]. *)
Definition Init (runtimeVersion : string) (schedule : list action) (w : World)
  : option outcome :=
  match getActionsDir w with
  | ((_, Some err), _) => Some (Some err)
  | ((dir, None), w') =>
      let progs := (fun step => fst (step dir runtimeVersion w')) <$> initSteps in
      match exec schedule (spawn progs) with
      | Some s => match main s with
                  | MRet err => Some err
                  | MRecv => None
                  end
      | None => None
      end
  end.

End Installer.

(** ** Example hosts *)

(** A host on which every container-runtime command ends with [docker],
    every download yields [body] and every archive holds [archive]. *)
Definition example_world (goos env_path : string) (docker : option error)
    (body : string) (archive : list ZipFile) : World :=
  {| GOOS := goos; GOARCH := "amd64"; PATH := env_path;
     HomeDir := inr "/home/u"; files := ∅; modes := ∅; umask := 18;
     stat_fault := fun _ => None; fault := fun _ _ => None;
     http_response := fun _ => inr {| Body := body; BodyErr := None |};
     cmd_exit := fun _ _ => docker;
     zip_entries := fun _ => inr archive;
     log := [] |}.

(** The host [w] with the file [path] holding [content], of mode [mode]. *)
Definition with_file_mode (path content : string) (mode : N) (w : World) : World :=
  set_files (<[path := content]> (files w))
    (set_modes (<[path := mode]> (modes w)) w).

(** The same for a file of mode 0644. *)
Definition with_file (path content : string) (w : World) : World :=
  with_file_mode path content 420 w.

(** Stand-ins for the path functions on slash-separated paths without dots
    or doubled slashes, the only ones the examples use. *)
Definition example_Join (dir name : string) : string := dir +:+ "/" +:+ name.
Definition example_Base (path : string) : string :=
  default EmptyString (last (Split path "/")).

(** A Linux host where an older download is already in the install
    directory. *)
Definition world_with_old_download : World :=
  with_file "/home/u/.actions/actionsrt_linux_amd64.zip" "old archive"
    (example_world "linux" "/usr/bin" None "new archive" []).

Definition entry_A : ZipFile :=
  {| Name := "actionsrt"; Mode := 493; OpenErr := None;
     Data := "runtime binary"; ReadErr := None |}.
Definition entry_B : ZipFile :=
  {| Name := "README"; Mode := 420; OpenErr := None;
     Data := "read me"; ReadErr := None |}.



(** A Windows host whose PATH names the install directory in capitals. *)
Definition world_windows_on_path : World :=
  example_world "windows" "C:\Windows;C:\ACTIONS;C:\Go\bin" None "archive" [].

(** A host whose archives hold no entry, before the download and after
    it. *)
Definition world_empty_archive : World :=
  example_world "linux" "/usr/bin" None "archive" [].

Definition world_empty_archive_downloaded : World :=
  let url := actionsURL "0.3.0" "linux" "amd64" in
  let path := "/home/u/.actions/actionsrt_linux_amd64.zip" in
  set_files {[ path := "archive" ]}
    (set_modes {[ path := 420%N ]}
       (add_event (EvOpenFile path 438)
          (add_event (EvHttpGet url) world_empty_archive))).

(** Three tasks.  The second one's error is received after the third one's
    nil: [Init] has returned while the first task has not sent yet. *)
Definition docker_missing : error :=
  errorString
    "Failed to launch placement service. Make sure Docker is installed and running".
Definition run_with_error : list action := [ASend 2; ASend 1].
Definition run_with_error_end : sched :=
  {| tasks := [TRun [None]; TRun []; TRun []]; wg := 3; closed := false;
     main := MRet (Some docker_missing);
     reads := [None; Some docker_missing] |}.

(** Three tasks that all send nil, run to the end. *)
Definition run_all_nil : list action :=
  [ASend 1; ASend 0; ADone 0; ASend 2; ADone 2; ADone 1; AClose; ARecvClosed].
Definition run_all_nil_end : sched :=
  {| tasks := [TDone; TDone; TDone]; wg := 0; closed := true;
     main := MRet None; reads := [None; None; None] |}.

(** The installer's error is received first. *)
Definition download_timeout : error :=
  errorString "Error downloading actions binary: timeout".
Definition run_installer_fails_end : sched :=
  {| tasks := [TRun []; TRun [None]; TRun [None]]; wg := 3; closed := false;
     main := MRet (Some download_timeout);
     reads := [Some download_timeout] |}.

(** Every byte of [s] is below 128.  On such strings [ToLower] is exactly
    Go's [strings.ToLower]. *)
Fixpoint is_ASCII (s : string) : bool :=
  match s with
  | EmptyString => true
  | String c s' => (N_of_ascii c <? 128)%N && is_ASCII s'
  end.

(** [c] is one of the bytes of [s]. *)
Fixpoint has_byte (c : ascii) (s : string) : bool :=
  match s with
  | EmptyString => false
  | String d s' => Ascii.eqb d c || has_byte c s'
  end.

(** A Linux host with nothing downloaded yet, whose archive holds [A] and
    [B]. *)
Definition world_unix_fresh : World :=
  example_world "linux" "/usr/bin" None "archive" [entry_A; entry_B].

(** A Windows host whose PATH does not name the install directory. *)
Definition world_windows_off_path : World :=
  example_world "windows" "C:\Windows" None "archive" [].

(** A Linux host that holds the extracted binary. *)
Definition world_with_extracted : World :=
  with_file "/home/u/.actions/actionsrt" "runtime binary"
    (example_world "linux" "/usr/bin" None "archive" [entry_A]).

(** A Linux host without a container runtime: the shell-style exit status
    127 for every command. *)
Definition world_docker_missing : World :=
  example_world "linux" "/usr/bin" (Some (ExitError 127 "exit status 127"))
    "archive" [entry_A].

(** A Linux host on which every container is already running. *)
Definition world_all_running : World :=
  example_world "linux" "/usr/bin" (Some (ExitError 125 "exit status 125"))
    "archive" [entry_A].

(** A host whose network is down. *)
Definition world_offline : World :=
  {| GOOS := "linux"; GOARCH := "amd64"; PATH := "/usr/bin";
     HomeDir := inr "/home/u"; files := ∅; modes := ∅; umask := 18;
     stat_fault := fun _ => None; fault := fun _ _ => None;
     http_response := fun _ => inl (ForeignError "dial tcp: i/o timeout");
     cmd_exit := fun _ _ => None;
     zip_entries := fun _ => inr [];
     log := [] |}.

(** [w'] is the host [w] up to its files and its log: it gives the same
    answers. *)
Definition same_host (w w' : World) : Prop :=
  GOOS w' = GOOS w /\ GOARCH w' = GOARCH w /\ PATH w' = PATH w /\
  HomeDir w' = HomeDir w /\ stat_fault w' = stat_fault w /\
  fault w' = fault w /\ http_response w' = http_response w /\
  cmd_exit w' = cmd_exit w /\ zip_entries w' = zip_entries w.

(** A stand-in for [filepath.FromSlash] on Windows. *)
Fixpoint example_FromSlash (s : string) : string :=
  match s with
  | EmptyString => EmptyString
  | String c s' =>
      String (if Ascii.eqb c "/" then "\"%char else c) (example_FromSlash s')
  end.

(** The Windows host [world_windows_on_path] after its download into
    [c:\actions]. *)
Definition world_windows_downloaded : World :=
  let url := actionsURL "0.3.0" "windows" "amd64" in
  let path := "c:\actions/actionsrt_windows_amd64.zip" in
  set_files {[ path := "archive" ]}
    (set_modes {[ path := 420%N ]}
       (add_event (EvOpenFile path 438)
          (add_event (EvHttpGet url) world_windows_on_path))).

(** A host whose container runtime answers the Redis command with [redis]
    and every other command with [other]. *)
Definition world_docker_by_service (redis other : option error) : World :=
  {| GOOS := "linux"; GOARCH := "amd64"; PATH := "/usr/bin";
     HomeDir := inr "/home/u"; files := ∅; modes := ∅; umask := 18;
     stat_fault := fun _ => None; fault := fun _ _ => None;
     http_response := fun _ => inr {| Body := "archive"; BodyErr := None |};
     cmd_exit := fun _ arg =>
       if String.eqb (default EmptyString (last arg)) "redis" then redis
       else other;
     zip_entries := fun _ => inr [];
     log := [] |}.

(** The last byte of a string. *)
Fixpoint last_byte (s : string) : option ascii :=
  match s with
  | EmptyString => None
  | String c EmptyString => Some c
  | String _ s' => last_byte s'
  end.

(** The message of an outcome names the component. *)
Definition names_component (component : string) (o : outcome) : bool :=
  match o with
  | Some e => Contains (Error e) component
  | None => false
  end.

(** * Properties *)

(** ** Launcher tasks *)

Lemma runRedis_sends (dir version : string) (w : World) :
  fst (runRedis dir version w) =
  match cmd_exit w "docker"
          ["run"; "--restart"; "always"; "-d"; "-p"; "6379:6379"; "redis"] with
  | Some e => if isContainerRunError e then [None]
              else [Some (parseDockerError "Redis state store" e)]
  | None => [None]
  end.
Proof.
  unfold runRedis, runCmd, exec_Run, bind, ret.
  destruct (cmd_exit w _ _) as [e|]; [|reflexivity].
  destruct (isContainerRunError e); reflexivity.
Qed.

Lemma runPlacementService_sends (dir version : string) (w : World) :
  fst (runPlacementService dir version w) =
  match cmd_exit w "docker" (placement_args (GOOS w) version) with
  | Some e => if isContainerRunError e then [None]
              else [Some (parseDockerError "placement service" e)]
  | None => [None]
  end.
Proof.
  unfold runPlacementService, runCmd, exec_Run, ask, bind, ret.
  destruct (cmd_exit w _ _) as [e|]; [|reflexivity].
  destruct (isContainerRunError e); reflexivity.
Qed.

(** Every launcher sends exactly one value, whatever the host does. *)
Lemma launchers_send_once (dir version : string) (w : World) :
  length (fst (runRedis dir version w)) = 1%nat /\
  length (fst (runPlacementService dir version w)) = 1%nat.
Proof.
  rewrite runRedis_sends, runPlacementService_sends.
  split; repeat case_match; reflexivity.
Qed.

Lemma HasPrefix_app (a b : string) : HasPrefix (a +:+ b) a = true.
Proof.
  induction a as [|c a IH]; [reflexivity|].
  change (String c a +:+ b) with (String c (a +:+ b)).
  cbn [HasPrefix]. by rewrite Ascii.eqb_refl.
Qed.

Lemma append_assoc (a b c : string) : (a +:+ b) +:+ c = a +:+ b +:+ c.
Proof.
  induction a as [|d a IH]; [reflexivity|].
  change (String d ((a +:+ b) +:+ c) = String d (a +:+ b +:+ c)).
  by rewrite IH.
Qed.

Lemma last_byte_app (a b : string) (c : ascii) :
  last_byte (a +:+ String c b) = last_byte (String c b).
Proof.
  induction a as [|d a IH]; [reflexivity|].
  change (String d a +:+ String c b) with (String d (a +:+ String c b)).
  cbn [last_byte]. rewrite IH.
  destruct a; reflexivity.
Qed.

(** The two messages [parseDockerError] builds never coincide, whatever
    the components. *)
Lemma missing_runtime_message_distinct (c c' : string) :
  "Failed to launch " +:+ c +:+ ". Make sure Docker is installed and running" <>
  "Failed to launch " +:+ c' +:+ ". Is it already running?".
Proof.
  intros Heq. apply (f_equal last_byte) in Heq.
  rewrite <- !append_assoc in Heq.
  rewrite !last_byte_app in Heq. discriminate Heq.
Qed.

Lemma parseDockerError_other (component : string) (e : error) :
  (forall m, e <> ExitError 125 m) -> (forall m, e <> ExitError 127 m) ->
  isContainerRunError e = false /\ parseDockerError component e = e.
Proof.
  intros H125 H127. destruct e as [code m|errno m|m|m]; try (split; reflexivity).
  unfold isContainerRunError, parseDockerError.
  destruct (code =? 125) eqn:E125.
  { apply Z.eqb_eq in E125. subst code. destruct (H125 m eq_refl). }
  destruct (code =? 127) eqn:E127.
  { apply Z.eqb_eq in E127. subst code. destruct (H127 m eq_refl). }
  split; reflexivity.
Qed.

(** For a failure other than exit status 127, the message of what a
    launcher sends is the invocation's own. *)
Lemma launcher_message_other (component : string) (e err : error) :
  (forall m, e <> ExitError 127 m) ->
  Some err ∈ (if isContainerRunError e then [None]
              else [Some (parseDockerError component e)]) ->
  Error err = Error e.
Proof.
  intros H127 Hin. destruct (isContainerRunError e) eqn:Hrun.
  { apply list_elem_of_singleton in Hin. discriminate Hin. }
  apply list_elem_of_singleton in Hin. injection Hin as ->.
  destruct e as [code m|errno m|m|m]; try reflexivity.
  unfold isContainerRunError in Hrun. unfold parseDockerError. rewrite Hrun.
  destruct (code =? 127) eqn:E127; [|reflexivity].
  apply Z.eqb_eq in E127. subst code. destruct (H127 m eq_refl).
Qed.

(** C3: a launcher whose own container-runtime command exits with status
    125 sends [nil], and nothing else, on the outcome channel, whatever the
    host answers to any other command. *)
Theorem launcher_exit_125_reports_success (w : World) (dir version : string) :
  (forall msg,
     cmd_exit w "docker"
       ["run"; "--restart"; "always"; "-d"; "-p"; "6379:6379"; "redis"] =
       Some (ExitError 125 msg) ->
     fst (runRedis dir version w) = [None]) /\
  (forall msg,
     cmd_exit w "docker" (placement_args (GOOS w) version) =
       Some (ExitError 125 msg) ->
     fst (runPlacementService dir version w) = [None]).
Proof.
  split; intros msg Hexit.
  - by rewrite runRedis_sends, Hexit.
  - by rewrite runPlacementService_sends, Hexit.
Qed.

Lemma launcher_exit_125_reports_success_witness :
  fst (runRedis "/home/u/.actions" "0.3.0"
         (world_docker_by_service (Some (ExitError 125 "exit status 125"))
            (Some (ExitError 1 "exit status 1")))) = [None] /\
  fst (runPlacementService "/home/u/.actions" "0.3.0"
         (world_docker_by_service None
            (Some (ExitError 125 "exit status 125")))) = [None].
Proof.
  split.
  - apply (proj1 (launcher_exit_125_reports_success _ _ _) "exit status 125").
    reflexivity.
  - apply (proj2 (launcher_exit_125_reports_success _ _ _) "exit status 125").
    reflexivity.
Defined.

(** C4: a launcher whose own command exits with status 127 sends the error
    [Failed to launch <component>. Make sure Docker is installed and
    running].  That message is never the [Is it already running?] message,
    whatever the components; and when the command fails in any other way,
    with an error whose own message is not that sentence, no error the
    launcher sends carries it.  The messages of os/exec do not begin with
    [Failed to launch], and every such message differs from it. *)
Theorem launcher_exit_127_distinct_error (w : World) (dir version : string) :
  let message c :=
    "Failed to launch " +:+ c +:+ ". Make sure Docker is installed and running" in
  let redis_args :=
    ["run"; "--restart"; "always"; "-d"; "-p"; "6379:6379"; "redis"] in
  (forall msg,
     cmd_exit w "docker" redis_args = Some (ExitError 127 msg) ->
     fst (runRedis dir version w) =
       [Some (errorString (message "Redis state store"))]) /\
  (forall msg,
     cmd_exit w "docker" (placement_args (GOOS w) version) =
       Some (ExitError 127 msg) ->
     fst (runPlacementService dir version w) =
       [Some (errorString (message "placement service"))]) /\
  (forall c c',
     message c <> "Failed to launch " +:+ c' +:+ ". Is it already running?") /\
  (forall c m, HasPrefix m "Failed to launch " = false -> m <> message c) /\
  (forall e' err,
     cmd_exit w "docker" redis_args = Some e' ->
     (forall m, e' <> ExitError 127 m) ->
     Error e' <> message "Redis state store" ->
     Some err ∈ fst (runRedis dir version w) ->
     Error err <> message "Redis state store") /\
  (forall e' err,
     cmd_exit w "docker" (placement_args (GOOS w) version) = Some e' ->
     (forall m, e' <> ExitError 127 m) ->
     Error e' <> message "placement service" ->
     Some err ∈ fst (runPlacementService dir version w) ->
     Error err <> message "placement service").
Proof.
  intros message redis_args. subst redis_args.
  split; [intros msg Hexit; by rewrite runRedis_sends, Hexit|].
  split; [intros msg Hexit; by rewrite runPlacementService_sends, Hexit|].
  split; [intros c c'; apply missing_runtime_message_distinct|].
  split.
  { intros c m Hprefix ->. unfold message in Hprefix.
    by rewrite HasPrefix_app in Hprefix. }
  split.
  - intros e' err Hexit H127 Hown Hin.
    rewrite runRedis_sends, Hexit in Hin.
    by rewrite (launcher_message_other _ _ _ H127 Hin).
  - intros e' err Hexit H127 Hown Hin.
    rewrite runPlacementService_sends, Hexit in Hin.
    by rewrite (launcher_message_other _ _ _ H127 Hin).
Qed.

Lemma launcher_exit_127_distinct_error_witness :
  fst (runRedis "/home/u/.actions" "0.3.0"
         (world_docker_by_service (Some (ExitError 127 "exit status 127")) None)) =
    [Some (errorString
       "Failed to launch Redis state store. Make sure Docker is installed and running")] /\
  fst (runPlacementService "/home/u/.actions" "0.3.0"
         (world_docker_by_service None (Some (ExitError 127 "exit status 127")))) =
    [Some (errorString
       "Failed to launch placement service. Make sure Docker is installed and running")] /\
  (forall err,
     Some err ∈ fst (runRedis "/home/u/.actions" "0.3.0"
                       (world_docker_by_service
                          (Some (ExitError 1 "exit status 1")) None)) ->
     Error err <>
     "Failed to launch Redis state store. Make sure Docker is installed and running").
Proof.
  split; [|split].
  - destruct (launcher_exit_127_distinct_error
                (world_docker_by_service
                   (Some (ExitError 127 "exit status 127")) None)
                "/home/u/.actions" "0.3.0") as (Hredis & _).
    apply (Hredis "exit status 127"). reflexivity.
  - destruct (launcher_exit_127_distinct_error
                (world_docker_by_service None
                   (Some (ExitError 127 "exit status 127")))
                "/home/u/.actions" "0.3.0") as (_ & Hplace & _).
    apply (Hplace "exit status 127"). reflexivity.
  - intros err.
    destruct (launcher_exit_127_distinct_error
                (world_docker_by_service
                   (Some (ExitError 1 "exit status 1")) None)
                "/home/u/.actions" "0.3.0") as (_ & _ & _ & _ & Hother & _).
    apply (Hother (ExitError 1 "exit status 1") err).
    + reflexivity.
    + discriminate.
    + discriminate.
Defined.

(** C5 fails as stated: on a host where the container runtime exits with
    status 1, each launcher sends the runtime's own error, whose message
    [exit status 1] names no component. *)
Lemma launcher_exit_1_names_no_component :
  let w := example_world "linux" "/usr/bin" (Some (ExitError 1 "exit status 1"))
             "" [] in
  fst (runRedis "/home/u/.actions" "0.3.0" w) = [Some (ExitError 1 "exit status 1")] /\
  names_component "Redis state store" (Some (ExitError 1 "exit status 1")) = false /\
  fst (runPlacementService "/home/u/.actions" "0.3.0" w) =
    [Some (ExitError 1 "exit status 1")] /\
  names_component "placement service" (Some (ExitError 1 "exit status 1")) = false.
Proof. repeat split; vm_compute; reflexivity. Qed.

(** C5, amended: when a launcher's own command fails in any way other than
    exit status 125 or 127, a failure to start the process included, the
    launcher sends that very error: not replaced and not wrapped. *)
Theorem launcher_other_failure_reported_unchanged
    (w : World) (dir version : string) (e : error) :
  (forall m, e <> ExitError 125 m) -> (forall m, e <> ExitError 127 m) ->
  (cmd_exit w "docker"
     ["run"; "--restart"; "always"; "-d"; "-p"; "6379:6379"; "redis"] = Some e ->
   fst (runRedis dir version w) = [Some e]) /\
  (cmd_exit w "docker" (placement_args (GOOS w) version) = Some e ->
   fst (runPlacementService dir version w) = [Some e]).
Proof.
  intros H125 H127.
  split; intros Hexit.
  - rewrite runRedis_sends, Hexit.
    by destruct (parseDockerError_other "Redis state store" e H125 H127)
      as [-> ->].
  - rewrite runPlacementService_sends, Hexit.
    by destruct (parseDockerError_other "placement service" e H125 H127)
      as [-> ->].
Qed.

Lemma launcher_other_failure_reported_unchanged_witness :
  fst (runRedis "/home/u/.actions" "0.3.0"
         (world_docker_by_service
            (Some (ForeignError "exec: docker: executable file not found in $PATH"))
            None)) =
    [Some (ForeignError "exec: docker: executable file not found in $PATH")] /\
  fst (runPlacementService "/home/u/.actions" "0.3.0"
         (world_docker_by_service None
            (Some (ExitError 1 "exit status 1")))) =
    [Some (ExitError 1 "exit status 1")].
Proof.
  split.
  - apply (launcher_other_failure_reported_unchanged
             (world_docker_by_service
                (Some (ForeignError
                         "exec: docker: executable file not found in $PATH"))
                None));
      [intros m; discriminate | intros m; discriminate | reflexivity].
  - apply (launcher_other_failure_reported_unchanged
             (world_docker_by_service None
                (Some (ExitError 1 "exit status 1"))));
      [intros m; discriminate | intros m; discriminate | reflexivity].
Defined.

(** ** The installer pipeline *)

Lemma Contains_app (a b c : string) : Contains (a +:+ b +:+ c) b = true.
Proof.
  assert (Hhere : forall s, Contains (b +:+ s) b = true).
  { intros s. destruct (b +:+ s) eqn:E; cbn [Contains]; rewrite <- E;
      by rewrite HasPrefix_app. }
  induction a as [|d a IH]; [apply Hhere|].
  change (String d a +:+ b +:+ c) with (String d (a +:+ b +:+ c)).
  cbn [Contains]. rewrite IH. apply orb_true_r.
Qed.

Lemma ToLower_app (a b : string) : ToLower (a +:+ b) = ToLower a +:+ ToLower b.
Proof.
  induction a as [|c a IH]; [reflexivity|].
  change (String c a +:+ b) with (String c (a +:+ b)).
  cbn [ToLower]. by rewrite IH.
Qed.

(** [strings.Split] never returns an empty slice: [tokens[len(tokens)-1]]
    in [downloadFile] is always in range. *)
Lemma Split_last (s : string) (sep : ascii) : is_Some (last (Split s sep)).
Proof.
  induction s as [|c s IH]; [by eexists|].
  cbn [Split]. destruct (Ascii.eqb c sep).
  - destruct IH as [tok Htok]. exists tok.
    destruct (Split s sep); [discriminate Htok|exact Htok].
  - destruct (Split s sep) as [|tok [|tok' toks]]; [by eexists..|].
    destruct IH as [t Ht]. by exists t.
Qed.

(** [os.Stat] never answers with an error that [os.IsExist] accepts, and it
    leaves the host as it is. *)
Lemma os_Stat_not_IsExist (path : string) (w : World) :
  IsExist (fst (os_Stat path w)) = false /\ snd (os_Stat path w) = w.
Proof.
  unfold os_Stat. destruct (stat_fault w path) as [[]|]; [by split..|].
  destruct (files w !! path); by split.
Qed.

(** Closes a goal [exists rest, log w' = log w ++ ev :: rest]. *)
Ltac log_tail :=
  cbn [fst snd log add_event set_files set_modes]; rewrite <- ?app_assoc;
  eexists; reflexivity.

Section InstallerProperties.

Variable path_Join : string -> string -> string.
Variable filepath_Base : string -> string.

(** C6: [downloadFile] never takes the early return.  Whatever the host,
    the directory and the URL, the test of the existence check is false, the
    GET is issued, and when the GET, the creation and the copy succeed the
    destination holds the downloaded body afterwards, also when it was
    there before. *)
Theorem downloadFile_never_skips (dir url : string) (w : World) :
  let filepath := path_Join dir (default EmptyString (last (Split url "/"))) in
  let res := downloadFile path_Join dir url w in
  IsExist (fst (os_Stat filepath w)) = false /\
  (exists rest, log (snd res) = log w ++ EvHttpGet url :: rest) /\
  (forall resp,
     http_response w url = inr resp -> BodyErr resp = None ->
     fault w OpOpenFile filepath = None -> fault w OpWrite filepath = None ->
     fst res = (filepath, None) /\
     files (snd res) !! filepath = Some (Body resp)).
Proof.
  intros filepath res.
  destruct (os_Stat_not_IsExist filepath w) as [Hno Hw].
  split; [exact Hno|].
  assert (Hres : res =
    (r <- http_Get url ;;
     match r with
     | inl e => ret (EmptyString, Some e)
     | inr resp =>
         err <- os_Create filepath ;;
         match err with
         | Some e => ret (EmptyString, Some e)
         | None =>
             err <- io_Copy filepath (Body resp) (BodyErr resp) ;;
             match err with
             | Some e => ret (EmptyString, Some e)
             | None => ret (filepath, None)
             end
         end
     end) w).
  { unfold res, downloadFile. fold filepath. unfold bind at 1.
    destruct (os_Stat filepath w) as [err w1]. cbn [fst snd] in Hno, Hw.
    rewrite Hno. by subst w1. }
  rewrite Hres. clear Hres res.
  unfold bind, http_Get, os_Create, os_OpenFile, io_Copy, ret.
  cbn [fault add_event set_files files log set_modes].
  split.
  - destruct (http_response w url) as [e|resp]; [log_tail|].
    cbn [fault add_event].
    destruct (fault w OpOpenFile filepath); [log_tail|].
    cbn [fault add_event set_files set_modes].
    destruct (fault w OpWrite filepath); [log_tail|].
    destruct (BodyErr resp); log_tail.
  - intros resp -> Hbody Hopen Hwrite.
    cbn [fault add_event]. rewrite Hopen.
    cbn [fault add_event set_files set_modes]. rewrite Hwrite, Hbody.
    cbn [fst snd files]. split; [reflexivity|]. apply lookup_insert_eq.
Qed.



(** The run of [extractFile] on an archive that starts with [A], spelled
    out: the entries after [A] play no part in it. *)
Lemma extractFile_cons
    (filepath targetDir content : string) (A : ZipFile) (others : list ZipFile)
    (w : World) :
  fault w OpReadFile filepath = None ->
  files w !! filepath = Some content ->
  zip_entries w content = inr (A :: others) ->
  let target := path_Join targetDir (Name A) in
  let w1 := add_event (EvOpenFile target (Mode A)) w in
  let w2 := set_files (<[target := EmptyString]> (files w))
              (set_modes (create_mode target (Mode A) w) w1) in
  let w3 := set_files (<[target := Data A]> (files w2)) w2 in
  extractFile path_Join filepath targetDir w =
  match OpenErr A with
  | Some e => ((EmptyString, Some e), w)
  | None =>
      match fault w OpOpenFile target with
      | Some e => ((EmptyString, Some e), w1)
      | None =>
          match fault w OpWrite target with
          | Some e => ((EmptyString, Some e), w2)
          | None =>
              match ReadErr A with
              | Some e => ((EmptyString, Some e), w3)
              | None => ((target, None), w3)
              end
          end
      end
  end.
Proof.
  intros Hread Hfile Hzip target w1 w2 w3.
  unfold extractFile, bind at 1, zip_OpenReader.
  rewrite Hread, Hfile, Hzip.
  cbn [for_range]. fold target.
  unfold bind, os_OpenFile, io_Copy, ret.
  destruct (OpenErr A) as [e|]; [reflexivity|].
  fold w1. destruct (fault w OpOpenFile target) as [e|]; [reflexivity|].
  change (files w1) with (files w). fold w2.
  change (fault w2 OpWrite target) with (fault w OpWrite target).
  destruct (fault w OpWrite target) as [e|]; [reflexivity|].
  fold w3. destruct (ReadErr A); reflexivity.
Qed.


(** C8: on Windows, when some part of PATH equals the install directory
    [c:\actions] up to case, [moveFileToPath] runs no command and leaves the
    host, PATH included, as it found it. *)
Theorem moveFileToPath_windows_PATH_present
    (filepath before dir after : string) (w : World) :
  is_windows (GOOS w) = true ->
  PATH w = before +:+ dir +:+ after ->
  ToLower dir = ToLower "c:\actions" ->
  moveFileToPath path_Join filepath_Base filepath w =
  (("c:\actions\actionsrt.exe", None), w).
Proof.
  intros Hwin Hpath Hdir.
  unfold moveFileToPath, bind, ask. rewrite Hwin, Hpath.
  rewrite !ToLower_app, Hdir, Contains_app. reflexivity.
Qed.

(** C10: when the downloaded archive holds no entry, [extractFile] returns
    the empty path with a nil error and leaves the host as it is; the
    installer sends no extraction error but goes on to [moveFileToPath] with
    the empty path, on the host as the download left it, and what it sends
    is decided by that call and, when it succeeds, by [makeExecutable] on
    the path it returns. *)
Theorem empty_archive_reaches_relocation
    (dir version filepath content : string) (w0 w : World) :
  downloadFile path_Join dir (actionsURL version (GOOS w0) (GOARCH w0)) w0 =
    ((filepath, None), w) ->
  fault w OpReadFile filepath = None ->
  files w !! filepath = Some content ->
  zip_entries w content = inr [] ->
  extractFile path_Join filepath dir w = ((EmptyString, None), w) /\
  installActionsBinary path_Join filepath_Base dir version w0 =
    match moveFileToPath path_Join filepath_Base EmptyString w with
    | ((_, Some e), w1) =>
        ([Some (errorString
                  ("Error moving actions binary to path: " +:+ Error e))], w1)
    | ((actionsPath, None), w1) =>
        match makeExecutable actionsPath w1 with
        | (Some e, w2) =>
            ([Some (errorString
                      ("Error making actions binary executable: " +:+ Error e))],
             w2)
        | (None, w2) => ([None], w2)
        end
    end.
Proof.
  intros Hdown Hread Hfile Hzip.
  assert (Hext : extractFile path_Join filepath dir w = ((EmptyString, None), w)).
  { unfold extractFile, bind, zip_OpenReader. by rewrite Hread, Hfile, Hzip. }
  split; [exact Hext|].
  unfold installActionsBinary, bind at 1 2 3, ask.
  rewrite Hdown. unfold bind at 1. rewrite Hext. unfold bind at 1.
  destruct (moveFileToPath _ _ _ w) as [[actionsPath [e|]] w1]; [reflexivity|].
  unfold bind at 1.
  destruct (makeExecutable actionsPath w1) as [[e|] w2]; reflexivity.
Qed.

End InstallerProperties.

Lemma downloadFile_never_skips_witness :
  files world_with_old_download !! "/home/u/.actions/actionsrt_linux_amd64.zip" =
    Some "old archive" /\
  fst (downloadFile example_Join "/home/u/.actions"
         (actionsURL "0.3.0" "linux" "amd64") world_with_old_download) =
    ("/home/u/.actions/actionsrt_linux_amd64.zip", None) /\
  files (snd (downloadFile example_Join "/home/u/.actions"
                (actionsURL "0.3.0" "linux" "amd64") world_with_old_download))
    !! "/home/u/.actions/actionsrt_linux_amd64.zip" = Some "new archive".
Proof.
  split; [vm_compute; reflexivity|].
  destruct (downloadFile_never_skips example_Join "/home/u/.actions"
              (actionsURL "0.3.0" "linux" "amd64") world_with_old_download)
    as (_ & _ & Hwrite).
  apply (Hwrite {| Body := "new archive"; BodyErr := None |}); reflexivity.
Defined.



Lemma moveFileToPath_windows_PATH_present_witness :
  moveFileToPath example_Join example_Base "c:\actions\actionsrt.exe"
    world_windows_on_path =
  (("c:\actions\actionsrt.exe", None), world_windows_on_path).
Proof.
  apply (moveFileToPath_windows_PATH_present example_Join example_Base
           "c:\actions\actionsrt.exe" "C:\Windows;" "C:\ACTIONS" ";C:\Go\bin");
    reflexivity.
Defined.

Lemma empty_archive_reaches_relocation_witness :
  extractFile example_Join "/home/u/.actions/actionsrt_linux_amd64.zip"
    "/home/u/.actions" world_empty_archive_downloaded =
    ((EmptyString, None), world_empty_archive_downloaded) /\
  installActionsBinary example_Join example_Base "/home/u/.actions" "0.3.0"
    world_empty_archive =
    ([Some (errorString "Error moving actions binary to path: open ")],
     world_empty_archive_downloaded).
Proof.
  destruct (empty_archive_reaches_relocation example_Join example_Base
              "/home/u/.actions" "0.3.0"
              "/home/u/.actions/actionsrt_linux_amd64.zip" "archive"
              world_empty_archive world_empty_archive_downloaded)
    as [Hext Hinst].
  - vm_compute; reflexivity.
  - reflexivity.
  - vm_compute; reflexivity.
  - reflexivity.
  - split; [exact Hext|]. rewrite Hinst. vm_compute; reflexivity.
Defined.

(** ** The goroutines *)

Local Open Scope nat_scope.

Lemma step_specP (a : action) (s s' : sched) :
  step a s = Some s' <-> step_spec s a s'.
Proof.
  split.
  - intros H. destruct a as [i|i| |]; cbn [step] in H.
    + destruct (tasks s !! i) as [[[|v rest]|]|] eqn:Ht; try discriminate H.
      destruct (main s) eqn:Hm; try discriminate H.
      destruct (closed s) eqn:Hc; try discriminate H.
      injection H as <-. by constructor.
    + destruct (tasks s !! i) as [[[|v rest]|]|] eqn:Ht; try discriminate H.
      injection H as <-. by constructor.
    + destruct (wg s) eqn:Hw; try discriminate H.
      destruct (closed s) eqn:Hc; try discriminate H.
      injection H as <-. by constructor.
    + destruct (main s) eqn:Hm; try discriminate H.
      destruct (closed s) eqn:Hc; try discriminate H.
      injection H as <-. by constructor.
  - intros H. destruct H as [i v rest Ht Hm Hc|i Ht|Hw Hc|Hm Hc]; cbn [step].
    + by rewrite Ht, Hm, Hc.
    + by rewrite Ht.
    + by rewrite Hw, Hc.
    + by rewrite Hm, Hc.
Qed.

Lemma sum_list_insert (f : task_state -> nat) (ts : list task_state)
    (i : nat) (t t' : task_state) :
  ts !! i = Some t ->
  sum_list (f <$> <[i := t']> ts) + f t = sum_list (f <$> ts) + f t'.
Proof.
  revert i. induction ts as [|x ts IH]; intros i Hi; [done|].
  destruct i as [|i].
  - injection Hi as ->.
    change (f t' + sum_list (f <$> ts) + f t = f t + sum_list (f <$> ts) + f t').
    lia.
  - change (f x + sum_list (f <$> <[i := t']> ts) + f t =
            f x + sum_list (f <$> ts) + f t').
    specialize (IH i Hi). lia.
Qed.

(** *** The values received *)

Lemma reads_ok_step (a : action) (s s' : sched) :
  reads_ok s -> step a s = Some s' -> reads_ok s'.
Proof.
  intros Hok Hstep. apply step_specP in Hstep. unfold reads_ok in *.
  destruct Hstep as [i v rest Ht Hm Hc|i Ht|Hw Hc|Hm Hc]; cbn [main reads].
  - rewrite Hm in Hok. destruct v as [err|].
    + by exists (reads s).
    + apply Forall_app. split; [done|]. by apply Forall_singleton.
  - done.
  - done.
  - by rewrite Hm in Hok.
Qed.

Lemma reads_ok_exec (acts : list action) (s s' : sched) :
  reads_ok s -> exec acts s = Some s' -> reads_ok s'.
Proof.
  revert s. induction acts as [|a acts IH]; intros s Hok Hex; cbn in Hex.
  - by injection Hex as <-.
  - destruct (step a s) as [s1|] eqn:Hstep; [|discriminate Hex].
    eauto using reads_ok_step.
Qed.

Lemma reads_ok_spawn (progs : list (list outcome)) : reads_ok (spawn progs).
Proof. unfold reads_ok. cbn. constructor. Qed.

(** Once [Init] has returned nothing is received any more, and a task that
    still has a value to send keeps it. *)
Lemma returned_step (a : action) (s s' : sched) (r : outcome) :
  main s = MRet r -> step a s = Some s' ->
  main s' = MRet r /\ reads s' = reads s /\
  forall i v l, tasks s !! i = Some (TRun (v :: l)) ->
                tasks s' !! i = Some (TRun (v :: l)).
Proof.
  intros Hret Hstep. apply step_specP in Hstep.
  destruct Hstep as [i v rest Ht Hm Hc|i Ht|Hw Hc|Hm Hc]; cbn [main reads tasks].
  - congruence.
  - split; [done|]. split; [done|]. intros j v l Hj.
    rewrite list_lookup_insert_ne; [done|]. congruence.
  - done.
  - congruence.
Qed.

Lemma returned_exec (acts : list action) (s s' : sched) (r : outcome) :
  main s = MRet r -> exec acts s = Some s' ->
  main s' = MRet r /\ reads s' = reads s /\
  forall i v l, tasks s !! i = Some (TRun (v :: l)) ->
                tasks s' !! i = Some (TRun (v :: l)).
Proof.
  revert s. induction acts as [|a acts IH]; intros s Hret Hex; cbn in Hex.
  - by injection Hex as <-.
  - destruct (step a s) as [s1|] eqn:Hstep; [|discriminate Hex].
    destruct (returned_step _ _ _ _ Hret Hstep) as (Hm1 & Hr1 & Ht1).
    destruct (IH _ Hm1 Hex) as (Hm2 & Hr2 & Ht2).
    split; [done|]. split; [congruence|]. eauto.
Qed.

(** *** The invariant of a run from [spawn1] *)

Lemma lookup_spawn1 (os : list outcome) (i : nat) (t : task_state) :
  tasks (spawn1 os) !! i = Some t ->
  exists o, os !! i = Some o /\ t = TRun [o].
Proof.
  unfold spawn1, spawn. cbn [tasks]. rewrite <- list_fmap_compose.
  rewrite list_lookup_fmap. destruct (os !! i) as [o|]; [|discriminate].
  intros [= <-]. by exists o.
Qed.

Lemma sum_spawn1 (f : task_state -> nat) (n : nat) (os : list outcome) :
  (forall o, f (TRun [o]) = n) ->
  sum_list (f <$> tasks (spawn1 os)) = n * length os.
Proof.
  intros Hf. unfold spawn1, spawn. cbn [tasks].
  induction os as [|o os IH]; [cbn; lia|].
  change (f (TRun [o]) +
          sum_list (f <$> (TRun <$> ((fun o => [o]) <$> os))) =
          n * S (length os)).
  rewrite IH, Hf. lia.
Qed.

Lemma inv_spawn1 (os : list outcome) : inv os (spawn1 os).
Proof.
  split.
  - rewrite (sum_spawn1 live_n 1); [|done].
    unfold spawn1, spawn. cbn [wg]. rewrite length_fmap. lia.
  - discriminate.
  - discriminate.
  - unfold spawn1, spawn. cbn [tasks]. by rewrite !length_fmap.
  - intros i t Ht. destruct (lookup_spawn1 _ _ _ Ht) as (o & Ho & ->). eauto.
  - by rewrite (sum_spawn1 delivered_n 0).
  - intros v Hv. cbn in Hv. by apply elem_of_nil in Hv.
Qed.

Lemma inv_step (os : list outcome) (a : action) (s s' : sched) :
  inv os s -> step a s = Some s' -> inv os s'.
Proof.
  intros [Hwg Hcl Hret Hlen Htasks Hcount Hreads] Hstep.
  apply step_specP in Hstep.
  destruct Hstep as [i v rest Ht Hm Hc|i Ht|Hw Hc|Hm Hc].
  - (* task [i] sends [v] *)
    destruct (Htasks i _ Ht) as (o & Ho & [Heq|[Hdel _]]); [|discriminate Hdel].
    injection Heq as -> ->.
    split; cbn [tasks wg closed main reads].
    + pose proof (sum_list_insert live_n _ _ _ (TRun []) Ht) as E.
      cbn [live_n] in E. lia.
    + discriminate.
    + destruct o; discriminate.
    + by rewrite length_insert.
    + intros j t Hj. apply list_lookup_insert_Some in Hj.
      destruct Hj as [(<- & <- & _)|(Hne & Hj)].
      * exists o. split; [done|]. right. split; [done|].
        apply elem_of_app. right. by apply list_elem_of_singleton.
      * destruct (Htasks j t Hj) as (o' & Ho' & [->|[Hdel Hin]]).
        -- exists o'. eauto.
        -- exists o'. split; [done|]. right. split; [done|].
           apply elem_of_app. by left.
    + pose proof (sum_list_insert delivered_n _ _ _ (TRun []) Ht) as E.
      cbn in E. rewrite length_app. cbn [length]. lia.
    + intros v Hv. apply elem_of_app in Hv. destruct Hv as [Hv|Hv]; [eauto|].
      apply list_elem_of_singleton in Hv. subst v.
      by apply list_elem_of_lookup_2 in Ho.
  - (* task [i] returns *)
    destruct (Htasks i _ Ht) as (o & Ho & [Heq|[_ Hin]]); [discriminate Heq|].
    pose proof (sum_list_insert live_n _ _ _ TDone Ht) as Elive.
    pose proof (sum_list_insert delivered_n _ _ _ TDone Ht) as Edel.
    cbn in Elive, Edel.
    split; cbn [tasks wg closed main reads].
    + lia.
    + intros Hc. rewrite (Hcl Hc). reflexivity.
    + done.
    + by rewrite length_insert.
    + intros j t Hj. apply list_lookup_insert_Some in Hj.
      destruct Hj as [(<- & <- & _)|(Hne & Hj)]; [|eauto].
      exists o. split; [done|]. right. by split.
    + lia.
    + done.
  - (* the channel is closed *)
    split; cbn [tasks wg closed main reads]; auto.
    congruence.
  - (* the loop ends *)
    split; cbn [tasks wg closed main reads]; auto.
Qed.

Lemma inv_exec (os : list outcome) (acts : list action) (s s' : sched) :
  inv os s -> exec acts s = Some s' -> inv os s'.
Proof.
  revert s. induction acts as [|a acts IH]; intros s Hinv Hex; cbn in Hex.
  - by injection Hex as <-.
  - destruct (step a s) as [s1|] eqn:Hstep; [|discriminate Hex].
    eauto using inv_step.
Qed.

Lemma all_done (ts : list task_state) :
  sum_list (live_n <$> ts) = 0 ->
  sum_list (delivered_n <$> ts) = length ts /\
  forall i t, ts !! i = Some t -> t = TDone.
Proof.
  induction ts as [|x ts IH]; intros Hsum.
  - split; [done|]. intros i t Hi. by destruct i.
  - change (live_n x + sum_list (live_n <$> ts) = 0) in Hsum.
    destruct x as [l|]; cbn [live_n] in Hsum; [lia|].
    destruct IH as [IH1 IH2]; [lia|].
    split.
    + change (1 + sum_list (delivered_n <$> ts) = S (length ts)). lia.
    + intros [|i] t Hi; [by injection Hi as <-|]. by apply (IH2 i).
Qed.

(** *** Every run can be brought to the return of [Init] *)

Lemma step_fuel (a : action) (s s' : sched) :
  step a s = Some s' -> fuel s' < fuel s.
Proof.
  intros Hstep. apply step_specP in Hstep. unfold fuel.
  destruct Hstep as [i v rest Ht Hm Hc|i Ht|Hw Hc|Hm Hc];
    cbn [tasks closed main].
  - pose proof (sum_list_insert task_fuel _ _ _ (TRun rest) Ht) as E.
    cbn [task_fuel length] in E. rewrite Hc, Hm. destruct v; lia.
  - pose proof (sum_list_insert task_fuel _ _ _ TDone Ht) as E.
    cbn [task_fuel length] in E. lia.
  - rewrite Hc. lia.
  - rewrite Hm, Hc. lia.
Qed.

Lemma tasks_cases (ts : list task_state) :
  (exists i v l, ts !! i = Some (TRun (v :: l))) \/
  (exists i, ts !! i = Some (TRun [])) \/
  sum_list (live_n <$> ts) = 0.
Proof.
  induction ts as [|x ts IH]; [by right; right|].
  destruct x as [[|v l]|].
  - right. left. by exists 0.
  - left. by exists 0, v, l.
  - destruct IH as [(i & v & l & Hi)|[(i & Hi)|Hsum]].
    + left. by exists (S i), v, l.
    + right. left. by exists (S i).
    + right. right. exact Hsum.
Qed.

(** While [Init] is in its loop some goroutine can move. *)
Lemma progress (os : list outcome) (s : sched) :
  inv os s -> main s = MRecv -> exists a s', step a s = Some s'.
Proof.
  intros Hinv Hm. destruct (closed s) eqn:Hc.
  { exists ARecvClosed. eexists. apply step_specP. by constructor. }
  destruct (tasks_cases (tasks s)) as [(i & v & l & Hi)|[(i & Hi)|Hsum]].
  - exists (ASend i). eexists. apply step_specP. by constructor.
  - exists (ADone i). eexists. apply step_specP. by constructor.
  - exists AClose. eexists. apply step_specP. constructor; [|done].
    by rewrite (inv_wg _ _ Hinv).
Qed.

Lemma eventually_returns (os : list outcome) (s : sched) :
  inv os s ->
  exists acts s' r, exec acts s = Some s' /\ main s' = MRet r.
Proof.
  remember (fuel s) as n eqn:Hn. revert s Hn.
  induction n as [n IH] using lt_wf_ind. intros s -> Hinv.
  destruct (main s) as [|r] eqn:Hm.
  - destruct (progress _ _ Hinv Hm) as (a & s1 & Hstep).
    destruct (IH (fuel s1) (step_fuel _ _ _ Hstep) s1 eq_refl
                (inv_step _ _ _ _ Hinv Hstep)) as (acts & s' & r & Hex & Hr).
    exists (a :: acts), s', r. split; [|done]. cbn. by rewrite Hstep.
  - by exists [], s, r.
Qed.

(** *** The result of [Init] *)

(** C1: in every run of the goroutines of [Init], as soon as an error [err]
    is among the values received on the outcome channel, [Init] has returned
    [err]: it is the last value received, every value received before it is
    nil, whichever task sent it and whatever the other tasks have done, and
    no later step of the other goroutines changes the result or is
    received. *)
Theorem Init_returns_first_error
    (progs : list (list outcome)) (acts : list action) (s : sched) (err : error) :
  exec acts (spawn progs) = Some s ->
  Some err ∈ reads s ->
  (exists pre, reads s = pre ++ [Some err] /\ Forall (eq None) pre) /\
  main s = MRet (Some err) /\
  (forall acts' s', exec acts' s = Some s' ->
     main s' = MRet (Some err) /\ reads s' = reads s).
Proof.
  intros Hex Hin.
  pose proof (reads_ok_exec _ _ _ (reads_ok_spawn progs) Hex) as Hok.
  unfold reads_ok in Hok.
  assert (Hnil : Forall (eq None) (reads s) -> False).
  { intros Hall. rewrite Forall_forall in Hall. by specialize (Hall _ Hin). }
  destruct (main s) as [|[err'|]] eqn:Hm; [done| |done].
  destruct Hok as (pre & Hreads & Hpre).
  assert (err' = err) as ->.
  { rewrite Hreads in Hin. apply elem_of_app in Hin. destruct Hin as [Hin|Hin].
    - rewrite Forall_forall in Hpre. by specialize (Hpre _ Hin).
    - apply list_elem_of_singleton in Hin. by injection Hin as ->. }
  split; [by exists pre|]. split; [done|].
  intros acts' s' Hex'.
  destruct (returned_exec _ _ _ _ Hm Hex') as (Hm' & Hr' & _). by split.
Qed.

Lemma Init_returns_first_error_witness :
  exec run_with_error (spawn1 [None; Some docker_missing; None]) =
    Some run_with_error_end /\
  tasks run_with_error_end !! 0 = Some (TRun [None]) /\
  main run_with_error_end = MRet (Some docker_missing).
Proof.
  assert (Hex : exec run_with_error (spawn1 [None; Some docker_missing; None]) =
                Some run_with_error_end) by reflexivity.
  split; [exact Hex|]. split; [reflexivity|].
  destruct (Init_returns_first_error _ _ _ docker_missing Hex) as (_ & Hret & _).
  - apply (list_elem_of_lookup_2 _ 1). reflexivity.
  - exact Hret.
Defined.

(** C2: from every state of a run of [Init] with [N] tasks that send one
    outcome each, the run can be continued until [Init] returns; when it has
    returned, the result is nil exactly when every task's outcome is nil;
    and when the result is nil, [N] values have been received from the
    channel. *)
Theorem Init_succeeds_iff_all_nil
    (os : list outcome) (acts : list action) (s : sched) :
  exec acts (spawn1 os) = Some s ->
  (exists acts' s' r, exec acts' s = Some s' /\ main s' = MRet r) /\
  (forall r, main s = MRet r -> (r = None <-> Forall (eq None) os)) /\
  (main s = MRet None -> length (reads s) = length os).
Proof.
  intros Hex.
  pose proof (inv_exec _ _ _ _ (inv_spawn1 os) Hex) as Hinv.
  pose proof (reads_ok_exec _ _ _ (reads_ok_spawn _) Hex) as Hok.
  unfold reads_ok in Hok.
  assert (Hall : main s = MRet None ->
            length (reads s) = length os /\ Forall (eq None) os).
  { intros Hm. rewrite Hm in Hok.
    pose proof (inv_closed _ _ Hinv (inv_ret_nil _ _ Hinv Hm)) as Hwg.
    rewrite (inv_wg _ _ Hinv) in Hwg.
    destruct (all_done _ Hwg) as [Hcount Hdone].
    split.
    - by rewrite (inv_count _ _ Hinv), Hcount, (inv_len _ _ Hinv).
    - apply Forall_lookup. intros i o Ho.
      destruct (lookup_lt_is_Some_2 (tasks s) i) as [t Ht].
      { rewrite (inv_len _ _ Hinv). by eapply lookup_lt_Some. }
      destruct (inv_tasks _ _ Hinv i t Ht) as (o' & Ho' & Hcase).
      assert (o' = o) as -> by congruence.
      rewrite (Hdone i t Ht) in Hcase.
      destruct Hcase as [Hcase|[_ Hin]]; [discriminate Hcase|].
      rewrite Forall_forall in Hok. by apply Hok. }
  split; [by apply (eventually_returns os)|]. split; [|by intros Hm; apply Hall].
  intros r Hm. split.
  - intros ->. by apply Hall.
  - intros Hnil. destruct r as [err|]; [|done]. exfalso.
    rewrite Hm in Hok. destruct Hok as (pre & Hreads & _).
    assert (Hin : Some err ∈ reads s).
    { rewrite Hreads. apply elem_of_app. right. by apply list_elem_of_singleton. }
    apply (inv_reads _ _ Hinv) in Hin.
    rewrite Forall_forall in Hnil. by specialize (Hnil _ Hin).
Qed.

Lemma Init_succeeds_iff_all_nil_witness :
  exec run_all_nil (spawn1 [None; None; None]) = Some run_all_nil_end /\
  length (reads run_all_nil_end) = 3.
Proof.
  assert (Hex : exec run_all_nil (spawn1 [None; None; None]) =
                Some run_all_nil_end) by reflexivity.
  split; [exact Hex|].
  destruct (Init_succeeds_iff_all_nil _ _ _ Hex) as (_ & _ & Hcount).
  exact (Hcount eq_refl).
Defined.

(** *** Tasks left behind by an early return *)

(** C9 fails as stated: when the installer's error is received first,
    [Init] returns it, and in no continuation of that run does the
    placement-service launcher reach its return. *)
Lemma launcher_never_completes_after_error :
  ~ tasks_complete_after_error [Some download_timeout; None; None].
Proof.
  intros Hclaim.
  assert (Hex : exec [ASend 0] (spawn1 [Some download_timeout; None; None]) =
                Some run_installer_fails_end) by reflexivity.
  destruct (Hclaim _ _ _ Hex eq_refl 1) as (acts' & s' & Hex' & Hdone).
  { cbn. lia. }
  destruct (returned_exec acts' run_installer_fails_end s'
              (Some download_timeout) eq_refl Hex') as (_ & _ & Hkeep).
  specialize (Hkeep 1 None [] eq_refl). congruence.
Qed.

(** C9, amended: in a run of [Init] in which it has returned an error, no
    task has been cancelled: each one either still holds the outcome it has
    to send, or has sent it and can reach its return and [wg.Done()]; and a
    task that still holds its outcome holds it in every continuation of the
    run, in which nothing more is received. *)
Theorem task_completes_only_if_received
    (os : list outcome) (acts : list action) (s : sched) (err : error) :
  exec acts (spawn1 os) = Some s ->
  main s = MRet (Some err) ->
  (forall i o, os !! i = Some o ->
     exists t, tasks s !! i = Some t /\
       (t = TRun [o] \/
        (delivered t = true /\
         exists acts' s', exec acts' s = Some s' /\ tasks s' !! i = Some TDone))) /\
  (forall acts' s' i o,
     exec acts' s = Some s' ->
     tasks s !! i = Some (TRun [o]) ->
     tasks s' !! i = Some (TRun [o]) /\ reads s' = reads s).
Proof.
  intros Hex Hm.
  pose proof (inv_exec _ _ _ _ (inv_spawn1 os) Hex) as Hinv.
  split.
  - intros i o Ho.
    destruct (lookup_lt_is_Some_2 (tasks s) i) as [t Ht].
    { rewrite (inv_len _ _ Hinv). by eapply lookup_lt_Some. }
    exists t. split; [done|].
    destruct (inv_tasks _ _ Hinv i t Ht) as (o' & Ho' & Hcase).
    assert (o' = o) as -> by congruence.
    destruct Hcase as [->|[Hdel _]]; [by left|]. right. split; [done|].
    destruct t as [[|v l]|]; [| discriminate Hdel |].
    + exists [ADone i]. eexists. split; [cbn; rewrite Ht; reflexivity|].
      cbn [tasks]. apply list_lookup_insert_eq. by eapply lookup_lt_Some.
    + by exists [], s.
  - intros acts' s' i o Hex' Ht.
    destruct (returned_exec _ _ _ _ Hm Hex') as (_ & Hr & Hkeep). eauto.
Qed.

Lemma task_completes_only_if_received_witness :
  exec [ASend 0] (spawn1 [Some download_timeout; None; None]) =
    Some run_installer_fails_end /\
  forall acts' s',
    exec acts' run_installer_fails_end = Some s' ->
    tasks s' !! 1 = Some (TRun [None]).
Proof.
  assert (Hex : exec [ASend 0] (spawn1 [Some download_timeout; None; None]) =
                Some run_installer_fails_end) by reflexivity.
  split; [exact Hex|]. intros acts' s' Hex'.
  destruct (task_completes_only_if_received _ _ _ download_timeout Hex eq_refl)
    as [_ Hkeep].
  exact (proj1 (Hkeep acts' s' 1 None Hex' eq_refl)).
Defined.

(** *** [Init] and its three steps *)

Section InitProperties.

Variable path_Join : string -> string -> string.
Variable filepath_Base : string -> string.
Variable filepath_FromSlash : string -> string.

(** The installer sends exactly one value on every path through it. *)
Lemma installActionsBinary_sends_once (dir version : string) (w : World) :
  exists o, fst (installActionsBinary path_Join filepath_Base dir version w) = [o].
Proof.
  unfold installActionsBinary, bind at 1 2 3, ask.
  destruct (downloadFile _ _ _ _) as [[filepath [e|]] w1]; [by eexists|].
  unfold bind at 1.
  destruct (extractFile _ _ _ _) as [[extracted [e|]] w2]; [by eexists|].
  unfold bind at 1.
  destruct (moveFileToPath _ _ _ _) as [[actionsPath [e|]] w3]; [by eexists|].
  unfold bind at 1.
  destruct (makeExecutable _ _) as [[e|] w4]; by eexists.
Qed.

(** Every step of [Init] sends exactly one value: its programs are those
    of [spawn1]. *)
Lemma initSteps_send_once (dir version : string) (w : World) :
  exists os,
    length os = 3 /\
    (fun step => fst (step dir version w)) <$> initSteps path_Join filepath_Base =
    (fun o => [o]) <$> os.
Proof.
  destruct (installActionsBinary_sends_once dir version w) as [o1 H1].
  pose proof (runPlacementService_sends dir version w) as H2.
  pose proof (runRedis_sends dir version w) as H3.
  assert (exists o2, fst (runPlacementService dir version w) = [o2]) as [o2 H2'].
  { rewrite H2. repeat case_match; by eexists. }
  assert (exists o3, fst (runRedis dir version w) = [o3]) as [o3 H3'].
  { rewrite H3. repeat case_match; by eexists. }
  exists [o1; o2; o3]. split; [reflexivity|].
  unfold initSteps. cbn [fmap list_fmap]. by rewrite H1, H2', H3'.
Qed.

(** [Init] fails at once when the install directory cannot be made, and
    is otherwise a run of three one-outcome tasks. *)
Lemma Init_runs_spawn1 (runtimeVersion : string) (schedule : list action)
    (w : World) :
  match getActionsDir path_Join filepath_FromSlash w with
  | ((_, Some err), _) =>
      Init path_Join filepath_Base filepath_FromSlash runtimeVersion schedule w =
      Some (Some err)
  | ((dir, None), w') =>
      exists os,
        length os = 3 /\
        Init path_Join filepath_Base filepath_FromSlash runtimeVersion schedule w =
        match exec schedule (spawn1 os) with
        | Some s => match main s with
                    | MRet err => Some err
                    | MRecv => None
                    end
        | None => None
        end
  end.
Proof.
  unfold Init.
  destruct (getActionsDir _ _ w) as [[dir [err|]] w']; [reflexivity|].
  destruct (initSteps_send_once dir runtimeVersion w') as (os & Hlen & Hos).
  exists os. split; [exact Hlen|]. unfold spawn1. by rewrite Hos.
Qed.

End InitProperties.

(** * Further properties *)

Local Open Scope Z_scope.

(** ** Launchers *)

(** What a launcher sends is nil, the invocation's own error, or the
    missing-runtime error for exit status 127. *)
Lemma launcher_report_cases (component : string) (e : error) :
  isContainerRunError e = false ->
  parseDockerError component e = e \/
  (exists m, e = ExitError 127 m) /\
  parseDockerError component e =
    errorString ("Failed to launch " +:+ component +:+
                 ". Make sure Docker is installed and running").
Proof.
  intros Hrun. destruct e as [code m|errno m|m|m]; try by left.
  unfold isContainerRunError in Hrun. unfold parseDockerError. rewrite Hrun.
  destruct (code =? 127) eqn:E127; [|by left].
  apply Z.eqb_eq in E127. subst code. right. split; [by exists m|done].
Qed.

(** X1: the [Is it already running?] error that [parseDockerError] builds
    for exit status 125 is never sent by a launcher: with that status the
    launcher sends nil, and otherwise [parseDockerError] does not build it.
    The errors of the invocation are those of os/exec, none of them made by
    this package. *)
Theorem launcher_never_sends_already_running
    (w : World) (dir version component : string) :
  (forall arg m, cmd_exit w "docker" arg <> Some (errorString m)) ->
  let already_running :=
    Some (errorString ("Failed to launch " +:+ component +:+
                       ". Is it already running?")) in
  (already_running ∉ fst (runRedis dir version w)) /\
  (already_running ∉ fst (runPlacementService dir version w)).
Proof.
  intros Hforeign already_running.
  assert (Hcase : forall c arg,
            already_running ∉
            match cmd_exit w "docker" arg with
            | Some e => if isContainerRunError e then [None]
                        else [Some (parseDockerError c e)]
            | None => [None]
            end).
  { intros c arg Hin. specialize (Hforeign arg).
    destruct (cmd_exit w "docker" arg) as [e|].
    - destruct (isContainerRunError e) eqn:Hrun.
      + apply list_elem_of_singleton in Hin. discriminate Hin.
      + apply list_elem_of_singleton in Hin. unfold already_running in Hin.
        assert (Heq : parseDockerError c e =
                      errorString ("Failed to launch " +:+ component +:+
                                   ". Is it already running?")) by congruence.
        clear Hin.
        destruct (launcher_report_cases c e Hrun) as [Hsame|[_ Hmissing]].
        * rewrite Hsame in Heq. eapply Hforeign. by rewrite Heq.
        * rewrite Hmissing in Heq. apply (f_equal Error) in Heq.
          cbn [Error] in Heq.
          exact (missing_runtime_message_distinct _ _ Heq).
    - apply list_elem_of_singleton in Hin. discriminate Hin. }
  rewrite runRedis_sends, runPlacementService_sends. split; apply Hcase.
Qed.

Lemma launcher_never_sends_already_running_witness :
  Some (errorString "Failed to launch Redis state store. Is it already running?")
    ∉ fst (runRedis "/home/u/.actions" "0.3.0" world_all_running).
Proof.
  apply (launcher_never_sends_already_running world_all_running
           "/home/u/.actions" "0.3.0" "Redis state store").
  intros arg m. discriminate.
Defined.

(** X2: each launcher runs exactly one command, [docker run] with the
    restart policy [always], detached, and a port mapping; on Windows the
    placement service is published on host port 6050, elsewhere on 50005,
    and its image tag is the version.  Nothing else of the host changes,
    whatever the command's result. *)
Theorem launchers_run_one_command (w : World) (dir version : string) :
  let w1 := snd (runRedis dir version w) in
  let w2 := snd (runPlacementService dir version w) in
  log w1 = log w ++
    [EvRunCmd "docker"
       ["run"; "--restart"; "always"; "-d"; "-p"; "6379:6379"; "redis"]] /\
  files w1 = files w /\
  log w2 = log w ++
    [EvRunCmd "docker"
       ["run"; "--restart"; "always"; "-d"; "-p";
        (if is_windows (GOOS w) then "6050:50005" else "50005:50005");
        "--entrypoint"; "./placement"; actionsImageURL +:+ ":" +:+ version]] /\
  files w2 = files w.
Proof.
  unfold runRedis, runPlacementService, placement_args, runCmd, exec_Run,
    ask, bind, ret.
  repeat split.
  - destruct (cmd_exit w _ _) as [e|]; [|reflexivity].
    destruct (isContainerRunError e); reflexivity.
  - destruct (cmd_exit w _ _) as [e|]; [|reflexivity].
    destruct (isContainerRunError e); reflexivity.
  - destruct (is_windows (GOOS w));
      (destruct (cmd_exit w _ _) as [e|]; [|reflexivity]);
      destruct (isContainerRunError e); reflexivity.
  - destruct (cmd_exit w _ _) as [e|]; [|reflexivity].
    destruct (isContainerRunError e); reflexivity.
Qed.

(** ** The goroutines, further *)

Local Open Scope nat_scope.

Lemma returned_error_sent
    (os : list outcome) (acts : list action) (s : sched) (err : error) :
  exec acts (spawn1 os) = Some s -> main s = MRet (Some err) -> Some err ∈ os.
Proof.
  intros Hex Hm.
  pose proof (inv_exec _ _ _ _ (inv_spawn1 os) Hex) as Hinv.
  pose proof (reads_ok_exec _ _ _ (reads_ok_spawn _) Hex) as Hok.
  unfold reads_ok in Hok. rewrite Hm in Hok. destruct Hok as (pre & Hreads & _).
  apply (inv_reads _ _ Hinv). rewrite Hreads. apply elem_of_app. right.
  by apply list_elem_of_singleton.
Qed.

Lemma returned_nil_all_done
    (os : list outcome) (acts : list action) (s : sched) :
  exec acts (spawn1 os) = Some s -> main s = MRet None ->
  closed s = true /\
  (forall i t, tasks s !! i = Some t -> t = TDone) /\
  Forall (eq None) os.
Proof.
  intros Hex Hm.
  pose proof (inv_exec _ _ _ _ (inv_spawn1 os) Hex) as Hinv.
  pose proof (reads_ok_exec _ _ _ (reads_ok_spawn _) Hex) as Hok.
  unfold reads_ok in Hok. rewrite Hm in Hok.
  pose proof (inv_ret_nil _ _ Hinv Hm) as Hclosed.
  pose proof (inv_closed _ _ Hinv Hclosed) as Hwg.
  rewrite (inv_wg _ _ Hinv) in Hwg.
  destruct (all_done _ Hwg) as [_ Hdone].
  split; [exact Hclosed|]. split; [exact Hdone|].
  apply Forall_lookup. intros i o Ho.
  destruct (lookup_lt_is_Some_2 (tasks s) i) as [t Ht].
  { rewrite (inv_len _ _ Hinv). by eapply lookup_lt_Some. }
  destruct (inv_tasks _ _ Hinv i t Ht) as (o' & Ho' & Hcase).
  assert (o' = o) as -> by congruence.
  rewrite (Hdone i t Ht) in Hcase.
  destruct Hcase as [Hcase|[_ Hin]]; [discriminate Hcase|].
  rewrite Forall_forall in Hok. by apply Hok.
Qed.

Lemma exec_fuel (acts : list action) (s s' : sched) :
  exec acts s = Some s' -> length acts + fuel s' <= fuel s.
Proof.
  revert s. induction acts as [|a acts IH]; intros s Hex; cbn in Hex.
  - injection Hex as <-. cbn. lia.
  - destruct (step a s) as [s1|] eqn:Hstep; [|discriminate Hex].
    pose proof (step_fuel _ _ _ Hstep). specialize (IH _ Hex). cbn [length]. lia.
Qed.

(** X14: in every run of [Init] the wait group's counter is the number of
    tasks that have not returned, and once the outcome channel is closed
    every task has returned: no task is left to send on the closed channel,
    and [wg.Done()] never takes the counter below zero. *)
Theorem channel_closed_after_all_returned
    (os : list outcome) (acts : list action) (s : sched) :
  exec acts (spawn1 os) = Some s ->
  wg s = sum_list (live_n <$> tasks s) /\
  (closed s = true -> forall i t, tasks s !! i = Some t -> t = TDone).
Proof.
  intros Hex.
  pose proof (inv_exec _ _ _ _ (inv_spawn1 os) Hex) as Hinv.
  split; [apply (inv_wg _ _ Hinv)|].
  intros Hclosed.
  pose proof (inv_closed _ _ Hinv Hclosed) as Hwg.
  rewrite (inv_wg _ _ Hinv) in Hwg.
  by destruct (all_done _ Hwg) as [_ Hdone].
Qed.

Lemma channel_closed_after_all_returned_witness :
  exec run_all_nil (spawn1 [None; None; None]) = Some run_all_nil_end /\
  forall i t, tasks run_all_nil_end !! i = Some t -> t = TDone.
Proof.
  assert (Hex : exec run_all_nil (spawn1 [None; None; None]) =
                Some run_all_nil_end) by reflexivity.
  split; [exact Hex|].
  destruct (channel_closed_after_all_returned _ _ _ Hex) as [_ Hdone].
  exact (Hdone eq_refl).
Defined.

(** X15: every run of [Init] with [N] tasks is at most [2N + 2] steps
    long: one send and one return per task, the close and the end of the
    loop.  No schedule keeps the goroutines running for ever. *)
Theorem Init_run_is_bounded (os : list outcome) (acts : list action) (s : sched) :
  exec acts (spawn1 os) = Some s -> length acts <= 2 * length os + 2.
Proof.
  intros Hex. pose proof (exec_fuel _ _ _ Hex) as Hfuel.
  unfold fuel at 2 in Hfuel. rewrite (sum_spawn1 task_fuel 2) in Hfuel; [|done].
  cbn [closed main spawn1 spawn] in Hfuel. lia.
Qed.

Lemma Init_run_is_bounded_witness :
  exec run_all_nil (spawn1 [None; None; None]) = Some run_all_nil_end /\
  length run_all_nil <= 8.
Proof.
  assert (Hex : exec run_all_nil (spawn1 [None; None; None]) =
                Some run_all_nil_end) by reflexivity.
  split; [exact Hex|]. exact (Init_run_is_bounded _ _ _ Hex).
Defined.

(** X16: [Init] does not deadlock in its loop: in every state of a run in
    which it is still receiving, some goroutine can take a step. *)
Theorem Init_loop_never_deadlocks
    (os : list outcome) (acts : list action) (s : sched) :
  exec acts (spawn1 os) = Some s ->
  main s = MRecv ->
  exists a s', step a s = Some s'.
Proof.
  intros Hex Hm. apply (progress os); [|exact Hm].
  exact (inv_exec _ _ _ _ (inv_spawn1 os) Hex).
Qed.

Lemma Init_loop_never_deadlocks_witness :
  exists a s',
    step a (spawn1 [Some docker_missing; Some download_timeout]) = Some s'.
Proof.
  apply (Init_loop_never_deadlocks
           [Some docker_missing; Some download_timeout] []); reflexivity.
Defined.

(** X17: when [Init] returns nil no goroutine is left behind: the channel
    is closed and every task has returned. *)
Theorem nil_return_leaves_no_task
    (os : list outcome) (acts : list action) (s : sched) :
  exec acts (spawn1 os) = Some s ->
  main s = MRet None ->
  closed s = true /\ forall i t, tasks s !! i = Some t -> t = TDone.
Proof.
  intros Hex Hm.
  destruct (returned_nil_all_done _ _ _ Hex Hm) as (Hclosed & Hdone & _).
  by split.
Qed.

Lemma nil_return_leaves_no_task_witness :
  exec run_all_nil (spawn1 [None; None; None]) = Some run_all_nil_end /\
  closed run_all_nil_end = true.
Proof.
  assert (Hex : exec run_all_nil (spawn1 [None; None; None]) =
                Some run_all_nil_end) by reflexivity.
  split; [exact Hex|].
  exact (proj1 (nil_return_leaves_no_task _ _ _ Hex eq_refl)).
Defined.

(** X18: which error [Init] returns is decided by the schedule: for every
    task whose outcome is an error there is a run, the one in which that
    task's send is received first, in which [Init] returns that error. *)
Theorem any_failing_task_can_decide
    (os : list outcome) (i : nat) (err : error) :
  os !! i = Some (Some err) ->
  exists s, exec [ASend i] (spawn1 os) = Some s /\ main s = MRet (Some err).
Proof.
  intros Hi.
  assert (Ht : tasks (spawn1 os) !! i = Some (TRun [Some err])).
  { unfold spawn1, spawn. cbn [tasks]. rewrite <- list_fmap_compose.
    by rewrite list_lookup_fmap, Hi. }
  cbn [exec step]. rewrite Ht. eexists. split; reflexivity.
Qed.

Lemma any_failing_task_can_decide_witness :
  exists s,
    exec [ASend 1] (spawn1 [Some docker_missing; Some download_timeout]) = Some s /\
    main s = MRet (Some download_timeout).
Proof.
  apply (any_failing_task_can_decide
           [Some docker_missing; Some download_timeout] 1 download_timeout).
  reflexivity.
Defined.

(** ** The installer's stages *)

Lemma Split_app_sep (a b : string) (sep : ascii) :
  Split (a +:+ String sep b) sep = Split a sep ++ Split b sep.
Proof.
  induction a as [|c a IH].
  - change (EmptyString +:+ String sep b) with (String sep b).
    cbn [Split]. by rewrite Ascii.eqb_refl.
  - change (String c a +:+ String sep b) with (String c (a +:+ String sep b)).
    cbn [Split]. rewrite IH. destruct (Ascii.eqb c sep); [reflexivity|].
    destruct (Split_last a sep) as [t Ht].
    destruct (Split a sep) as [|tok toks]; [discriminate Ht|reflexivity].
Qed.

Lemma Split_no_sep (s : string) (sep : ascii) :
  has_byte sep s = false -> Split s sep = [s].
Proof.
  induction s as [|c s IH]; [reflexivity|].
  cbn [has_byte Split]. intros Hno. apply orb_false_elim in Hno as [Hc Hs].
  by rewrite Hc, (IH Hs).
Qed.

(** The last piece of [before/name] is [name] when [name] has no slash. *)
Lemma Split_last_segment (before name : string) :
  has_byte "/" name = false ->
  default EmptyString (last (Split (before +:+ String "/" name) "/")) = name.
Proof.
  intros Hno. rewrite Split_app_sep, (Split_no_sep _ _ Hno), last_snoc.
  reflexivity.
Qed.

Section InstallerStages.

Variable path_Join : string -> string -> string.
Variable filepath_Base : string -> string.
Variable filepath_FromSlash : string -> string.

(** The run of [downloadFile], spelled out. *)
Lemma downloadFile_cases (dir url : string) (w : World) :
  let filepath := path_Join dir (default EmptyString (last (Split url "/"))) in
  let w1 := add_event (EvHttpGet url) w in
  let w2 := add_event (EvOpenFile filepath 438) w1 in
  let w3 := set_files (<[filepath := EmptyString]> (files w))
              (set_modes (create_mode filepath 438 w) w2) in
  downloadFile path_Join dir url w =
  match http_response w url with
  | inl e => ((EmptyString, Some e), w1)
  | inr resp =>
      match fault w OpOpenFile filepath with
      | Some e => ((EmptyString, Some e), w2)
      | None =>
          match fault w OpWrite filepath with
          | Some e => ((EmptyString, Some e), w3)
          | None =>
              let w4 := set_files (<[filepath := Body resp]> (files w3)) w3 in
              match BodyErr resp with
              | Some e => ((EmptyString, Some e), w4)
              | None => ((filepath, None), w4)
              end
          end
      end
  end.
Proof.
  intros filepath w1 w2 w3.
  destruct (os_Stat_not_IsExist filepath w) as [Hno Hw].
  unfold downloadFile. fold filepath. unfold bind at 1.
  destruct (os_Stat filepath w) as [err w0]. cbn [fst snd] in Hno, Hw.
  rewrite Hno. subst w0.
  unfold bind, http_Get, os_Create, os_OpenFile, io_Copy, ret. fold w1.
  destruct (http_response w url) as [e|resp]; [reflexivity|].
  change (fault w1 OpOpenFile filepath) with (fault w OpOpenFile filepath).
  fold w2. destruct (fault w OpOpenFile filepath) as [e|]; [reflexivity|].
  change (files w2) with (files w).
  change (create_mode filepath 438 w1) with (create_mode filepath 438 w).
  fold w3.
  change (fault w3 OpWrite filepath) with (fault w OpWrite filepath).
  destruct (fault w OpWrite filepath) as [e|]; [reflexivity|].
  destruct (BodyErr resp); reflexivity.
Qed.

(** The run of [moveFileToPath] off Windows, spelled out. *)
Lemma moveFileToPath_unix_cases (filepath : string) (w : World) :
  is_windows (GOOS w) = false ->
  let dest := path_Join "/usr/local/bin" (filepath_Base filepath) in
  let w1 := add_event (EvWriteFile dest 420) w in
  moveFileToPath path_Join filepath_Base filepath w =
  match fault w OpReadFile filepath with
  | Some e => ((EmptyString, Some e), w)
  | None =>
      match files w !! filepath with
      | None => ((EmptyString, Some (SysError ENOENT ("open " +:+ filepath))), w)
      | Some content =>
          match fault w OpWriteFile dest with
          | Some e => ((EmptyString, Some e), w1)
          | None =>
              ((dest, None),
               set_files (<[dest := content]> (files w))
                 (set_modes (create_mode dest 420 w) w1))
          end
      end
  end.
Proof.
  intros Hwin dest w1.
  unfold moveFileToPath, bind at 1, ask. rewrite Hwin. fold dest.
  unfold bind, ioutil_ReadFile, ioutil_WriteFile, ret.
  destruct (fault w OpReadFile filepath) as [e|]; [reflexivity|].
  destruct (files w !! filepath) as [content|]; [|reflexivity].
  fold w1. destruct (fault w OpWriteFile dest); reflexivity.
Qed.

(** The run of [moveFileToPath] on Windows, spelled out. *)
Lemma moveFileToPath_windows_cases (filepath : string) (w : World) :
  is_windows (GOOS w) = true ->
  let setx := EvRunCmd "SETX" ["PATH"; PATH w +:+ ";c:\actions"] in
  moveFileToPath path_Join filepath_Base filepath w =
  if Contains (ToLower (PATH w)) (ToLower "c:\actions") then
    (("c:\actions\actionsrt.exe", None), w)
  else
    match cmd_exit w "SETX" ["PATH"; PATH w +:+ ";c:\actions"] with
    | Some e => ((EmptyString, Some e), add_event setx w)
    | None => (("c:\actions\actionsrt.exe", None), add_event setx w)
    end.
Proof.
  intros Hwin setx.
  unfold moveFileToPath, bind at 1 2, ask. rewrite Hwin.
  destruct (Contains _ _); [reflexivity|].
  unfold negb, bind, runCmd, exec_Run, bind, ret. fold setx.
  destruct (cmd_exit w _ _); reflexivity.
Qed.

(** X3: [getActionsDir] never touches a file.  When it succeeds it has
    asked for exactly one directory, the one it returns, with mode 0700;
    when it fails it returns the empty path.  On Windows the directory is
    fixed and the current user is not looked up. *)
Theorem getActionsDir_result (w : World) :
  let res := getActionsDir path_Join filepath_FromSlash w in
  files (snd res) = files w /\
  match snd (fst res) with
  | None => log (snd res) = log w ++ [EvMkdirAll (fst (fst res)) 448]
  | Some _ => fst (fst res) = EmptyString
  end /\
  (is_windows (GOOS w) = true ->
   log (snd res) = log w ++ [EvMkdirAll (filepath_FromSlash "c:/actions") 448]).
Proof.
  unfold getActionsDir, bind, ask, os_MkdirAll, ret.
  destruct (is_windows (GOOS w)).
  - destruct (fault w OpMkdirAll _); cbn; auto.
  - destruct (HomeDir w) as [e|home]; [cbn; by auto|].
    destruct (fault w OpMkdirAll _); cbn; by auto.
Qed.

(** X4: the archive is stored under the last path segment of the URL.
    For a URL [before/name] whose [name] has no slash, no file but
    [path.Join(dir, name)] is changed, and that path is the one returned on
    success. *)
Theorem downloadFile_stores_under_last_segment
    (dir before name : string) (w : World) :
  has_byte "/" name = false ->
  let res := downloadFile path_Join dir (before +:+ String "/" name) w in
  (forall p, p <> path_Join dir name -> files (snd res) !! p = files w !! p) /\
  (snd (fst res) = None -> fst (fst res) = path_Join dir name).
Proof.
  intros Hno res. subst res. rewrite downloadFile_cases.
  rewrite (Split_last_segment _ _ Hno).
  destruct (http_response w _) as [e|resp]; [by split|].
  destruct (fault w OpOpenFile _) as [e|]; [by split|].
  destruct (fault w OpWrite _) as [e|].
  { split; [|discriminate]. intros p Hp. cbn [snd set_files files set_modes].
    by rewrite lookup_insert_ne. }
  assert (Hother : forall p, p <> path_Join dir name ->
            <[path_Join dir name := Body resp]>
              (<[path_Join dir name := EmptyString]> (files w)) !! p =
            files w !! p).
  { intros p Hp. by rewrite !lookup_insert_ne. }
  destruct (BodyErr resp) as [e|]; (split; [exact Hother|done]).
Qed.

(** X5: a download whose GET fails changes no file: [downloadFile] returns
    the empty path with the GET's error, and the only call it has issued is
    the GET. *)
Theorem downloadFile_get_failure (dir url : string) (e : error) (w : World) :
  http_response w url = inl e ->
  downloadFile path_Join dir url w =
  ((EmptyString, Some e), add_event (EvHttpGet url) w).
Proof. intros Hget. by rewrite downloadFile_cases, Hget. Qed.

(** X6: off Windows [moveFileToPath] copies and does not move.  When the
    source can be read and the destination written, the destination
    [/usr/local/bin/<base name>] holds the source's content, written with
    mode 0644, every other file, the source included, is as before, and the
    destination is returned; when there is no source file, it fails with the
    empty path and the host is untouched. *)
Theorem moveFileToPath_unix_copies (filepath : string) (w : World) :
  is_windows (GOOS w) = false ->
  fault w OpReadFile filepath = None ->
  let dest := path_Join "/usr/local/bin" (filepath_Base filepath) in
  fault w OpWriteFile dest = None ->
  let res := moveFileToPath path_Join filepath_Base filepath w in
  match files w !! filepath with
  | Some content =>
      fst res = (dest, None) /\
      files (snd res) = <[dest := content]> (files w) /\
      files (snd res) !! filepath = Some content /\
      log (snd res) = log w ++ [EvWriteFile dest 420]
  | None =>
      fst res = (EmptyString, Some (SysError ENOENT ("open " +:+ filepath))) /\
      snd res = w
  end.
Proof.
  intros Hwin Hread dest Hwrite res. subst res.
  rewrite (moveFileToPath_unix_cases _ _ Hwin), Hread. fold dest.
  destruct (files w !! filepath) as [content|] eqn:Hsrc; [|by split].
  rewrite Hwrite. cbn [fst snd set_files files log add_event set_modes].
  repeat split.
  destruct (decide (dest = filepath)) as [->|Hne].
  - apply lookup_insert_eq.
  - by rewrite lookup_insert_ne.
Qed.

(** X7: on Windows [moveFileToPath] moves nothing.  Whatever path it is
    given, it changes no file, and when it succeeds it returns the fixed
    path [c:\actions\actionsrt.exe]. *)
Theorem moveFileToPath_windows_moves_nothing (filepath : string) (w : World) :
  is_windows (GOOS w) = true ->
  let res := moveFileToPath path_Join filepath_Base filepath w in
  files (snd res) = files w /\
  (snd (fst res) = None -> fst (fst res) = "c:\actions\actionsrt.exe").
Proof.
  intros Hwin res. subst res. rewrite (moveFileToPath_windows_cases _ _ Hwin).
  destruct (Contains _ _); [by split|].
  destruct (cmd_exit w _ _); by split.
Qed.

(** X8: on Windows, when no part of PATH equals the install directory up
    to case, [moveFileToPath] runs exactly one command, [SETX PATH] with the
    old value followed by [;c:\actions], and fails with the empty path
    exactly when that command fails.  PATH is taken to hold bytes below 128
    only, where the lower-casing is Go's. *)
Theorem moveFileToPath_windows_extends_PATH (filepath : string) (w : World) :
  is_windows (GOOS w) = true ->
  is_ASCII (PATH w) = true ->
  Contains (ToLower (PATH w)) (ToLower "c:\actions") = false ->
  let res := moveFileToPath path_Join filepath_Base filepath w in
  log (snd res) =
    log w ++ [EvRunCmd "SETX" ["PATH"; PATH w +:+ ";c:\actions"]] /\
  fst res =
    match cmd_exit w "SETX" ["PATH"; PATH w +:+ ";c:\actions"] with
    | Some e => (EmptyString, Some e)
    | None => ("c:\actions\actionsrt.exe", None)
    end.
Proof.
  intros Hwin _ Habsent res. subst res.
  rewrite (moveFileToPath_windows_cases _ _ Hwin), Habsent.
  destruct (cmd_exit w _ _); by split.
Qed.

(** What the installer sends, by stage. *)
Lemma installActionsBinary_cases (dir version : string) (w : World) :
  let url := actionsURL version (GOOS w) (GOARCH w) in
  installActionsBinary path_Join filepath_Base dir version w =
  match downloadFile path_Join dir url w with
  | ((_, Some e), w1) =>
      ([Some (Errorf "Error downloading actions binary" e)], w1)
  | ((filepath, None), w1) =>
      match extractFile path_Join filepath dir w1 with
      | ((_, Some e), w2) =>
          ([Some (Errorf "Error extracting actions binary" e)], w2)
      | ((extracted, None), w2) =>
          match moveFileToPath path_Join filepath_Base extracted w2 with
          | ((_, Some e), w3) =>
              ([Some (Errorf "Error moving actions binary to path" e)], w3)
          | ((actionsPath, None), w3) =>
              match makeExecutable actionsPath w3 with
              | (Some e, w4) =>
                  ([Some (Errorf "Error making actions binary executable" e)], w4)
              | (None, w4) => ([None], w4)
              end
          end
      end
  end.
Proof.
  intros url. unfold installActionsBinary, bind at 1 2 3, ask. fold url.
  destruct (downloadFile _ _ _ _) as [[filepath [e|]] w1]; [reflexivity|].
  unfold bind at 1.
  destruct (extractFile _ _ _ _) as [[extracted [e|]] w2]; [reflexivity|].
  unfold bind at 1.
  destruct (moveFileToPath _ _ _ _) as [[actionsPath [e|]] w3]; [reflexivity|].
  unfold bind at 1.
  destruct (makeExecutable _ _) as [[e|] w4]; reflexivity.
Qed.

(** X9: the installer sends one value.  It is nil when the four stages
    succeed; otherwise it is an error made by this package for the first
    stage that fails, whose message is that stage's sentence, a colon and
    the message of that stage's own error.  No bare error of the host is
    ever sent. *)
Theorem installActionsBinary_wraps_failures (dir version : string) (w : World) :
  fst (installActionsBinary path_Join filepath_Base dir version w) =
  match downloadFile path_Join dir (actionsURL version (GOOS w) (GOARCH w)) w with
  | ((_, Some e), _) =>
      [Some (errorString ("Error downloading actions binary: " +:+ Error e))]
  | ((filepath, None), w1) =>
      match extractFile path_Join filepath dir w1 with
      | ((_, Some e), _) =>
          [Some (errorString ("Error extracting actions binary: " +:+ Error e))]
      | ((extracted, None), w2) =>
          match moveFileToPath path_Join filepath_Base extracted w2 with
          | ((_, Some e), _) =>
              [Some (errorString
                 ("Error moving actions binary to path: " +:+ Error e))]
          | ((actionsPath, None), w3) =>
              match makeExecutable actionsPath w3 with
              | (Some e, _) =>
                  [Some (errorString
                     ("Error making actions binary executable: " +:+ Error e))]
              | (None, _) => [None]
              end
          end
      end
  end.
Proof.
  rewrite installActionsBinary_cases. cbv zeta.
  destruct (downloadFile _ _ _ _) as [[filepath [e|]] w1]; [reflexivity|].
  destruct (extractFile _ _ _ _) as [[extracted [e|]] w2]; [reflexivity|].
  destruct (moveFileToPath _ _ _ _) as [[actionsPath [e|]] w3]; [reflexivity|].
  destruct (makeExecutable _ _) as [[e|] w4]; reflexivity.
Qed.

Lemma extractFile_nil (filepath targetDir content : string) (w : World) :
  fault w OpReadFile filepath = None ->
  files w !! filepath = Some content ->
  zip_entries w content = inr [] ->
  extractFile path_Join filepath targetDir w = ((EmptyString, None), w).
Proof.
  intros Hread Hfile Hzip.
  unfold extractFile, bind, zip_OpenReader. by rewrite Hread, Hfile, Hzip.
Qed.

(** The stages when nothing fails: the result, and the files and the log
    they leave. *)
Lemma downloadFile_ok (dir url : string) (resp : Response) (w : World) :
  let archive := path_Join dir (default EmptyString (last (Split url "/"))) in
  http_response w url = inr resp ->
  BodyErr resp = None ->
  fault w OpOpenFile archive = None ->
  fault w OpWrite archive = None ->
  exists w1,
    downloadFile path_Join dir url w = ((archive, None), w1) /\
    same_host w w1 /\
    files w1 = <[archive := Body resp]> (<[archive := EmptyString]> (files w)) /\
    log w1 = log w ++ [EvHttpGet url; EvOpenFile archive 438].
Proof.
  intros archive Hget Hbody Hopen Hwrite.
  rewrite downloadFile_cases. fold archive. cbv zeta.
  rewrite Hget, Hopen, Hwrite, Hbody.
  eexists. split; [reflexivity|]. split; [by repeat split|].
  split; [reflexivity|]. cbn [log set_files add_event set_modes].
  by rewrite <- app_assoc.
Qed.

Lemma extractFile_ok
    (filepath targetDir content : string) (A : ZipFile) (others : list ZipFile)
    (w : World) :
  let extracted := path_Join targetDir (Name A) in
  fault w OpReadFile filepath = None ->
  files w !! filepath = Some content ->
  zip_entries w content = inr (A :: others) ->
  OpenErr A = None ->
  ReadErr A = None ->
  fault w OpOpenFile extracted = None ->
  fault w OpWrite extracted = None ->
  exists w1,
    extractFile path_Join filepath targetDir w = ((extracted, None), w1) /\
    same_host w w1 /\
    files w1 = <[extracted := Data A]> (files w) /\
    log w1 = log w ++ [EvOpenFile extracted (Mode A)].
Proof.
  intros extracted Hread Hfile Hzip Hopen Hdata Hcreate Hwrite.
  rewrite (extractFile_cons path_Join _ _ _ _ _ _ Hread Hfile Hzip).
  fold extracted. rewrite Hopen, Hcreate, Hwrite, Hdata.
  eexists. split; [reflexivity|]. split; [by repeat split|].
  split; [|reflexivity]. cbn [files set_files add_event set_modes].
  apply insert_insert_eq.
Qed.

Lemma moveFileToPath_ok (filepath content : string) (w : World) :
  let dest := path_Join "/usr/local/bin" (filepath_Base filepath) in
  is_windows (GOOS w) = false ->
  fault w OpReadFile filepath = None ->
  files w !! filepath = Some content ->
  fault w OpWriteFile dest = None ->
  exists w1,
    moveFileToPath path_Join filepath_Base filepath w = ((dest, None), w1) /\
    same_host w w1 /\
    files w1 = <[dest := content]> (files w) /\
    log w1 = log w ++ [EvWriteFile dest 420].
Proof.
  intros dest Hwin Hread Hfile Hwrite.
  rewrite (moveFileToPath_unix_cases _ _ Hwin), Hread, Hfile. fold dest.
  rewrite Hwrite. eexists. split; [reflexivity|]. split; [by repeat split|].
  by split.
Qed.

Lemma makeExecutable_ok (filepath content : string) (w : World) :
  is_windows (GOOS w) = false ->
  fault w OpChmod filepath = None ->
  files w !! filepath = Some content ->
  exists w1,
    makeExecutable filepath w = (None, w1) /\
    same_host w w1 /\
    files w1 = files w /\
    log w1 = log w ++ [EvChmod filepath 511].
Proof.
  intros Hwin Hfault Hfile.
  unfold makeExecutable, bind, ask, os_Chmod, ret.
  rewrite Hwin. cbn [negb]. rewrite Hfault, Hfile.
  eexists. split; [reflexivity|]. split; [by repeat split|]. by split.
Qed.

(** X10: the whole installer on a host other than Windows where nothing
    fails.  When the GET yields an archive whose first entry is [A], the
    installer sends nil, [/usr/local/bin/<base name of A's extracted path>]
    holds [A]'s data, and the calls issued are, in order: the GET, the
    creation of the archive file with mode 0666, the creation of the
    extracted file with [A]'s mode, the write of the installed file with
    mode 0644 and its chmod to 0777. *)
Theorem installActionsBinary_unix_success
    (dir version : string) (resp : Response) (A : ZipFile)
    (others : list ZipFile) (w : World) :
  is_windows (GOOS w) = false ->
  (forall op p, fault w op p = None) ->
  let url := actionsURL version (GOOS w) (GOARCH w) in
  http_response w url = inr resp ->
  BodyErr resp = None ->
  zip_entries w (Body resp) = inr (A :: others) ->
  OpenErr A = None ->
  ReadErr A = None ->
  let archive := path_Join dir (default EmptyString (last (Split url "/"))) in
  let extracted := path_Join dir (Name A) in
  let installed := path_Join "/usr/local/bin" (filepath_Base extracted) in
  let res := installActionsBinary path_Join filepath_Base dir version w in
  fst res = [None] /\
  files (snd res) !! installed = Some (Data A) /\
  log (snd res) =
    log w ++ [EvHttpGet url; EvOpenFile archive 438;
              EvOpenFile extracted (Mode A); EvWriteFile installed 420;
              EvChmod installed 511].
Proof.
  intros Hwin Hfault url Hget Hbody Hzip Hopen Hdata archive extracted
    installed res.
  subst res. rewrite installActionsBinary_cases. fold url. clearbody url.
  destruct (downloadFile_ok dir url resp w Hget Hbody (Hfault _ _) (Hfault _ _))
    as (w1 & -> & Hsame1 & Hfiles1 & Hlog1).
  fold archive in Hfiles1, Hlog1 |- *. clearbody archive.
  destruct Hsame1 as (Hgoos1 & _ & _ & _ & _ & Hfault1 & _ & _ & Hzip1).
  destruct (extractFile_ok archive dir (Body resp) A others w1) as
    (w2 & -> & Hsame2 & Hfiles2 & Hlog2);
    try (rewrite Hfault1; apply Hfault); try done.
  { rewrite Hfiles1. apply lookup_insert_eq. }
  { by rewrite Hzip1. }
  fold extracted in Hfiles2, Hlog2 |- *. clearbody extracted.
  destruct Hsame2 as (Hgoos2 & _ & _ & _ & _ & Hfault2 & _ & _ & _).
  destruct (moveFileToPath_ok extracted (Data A) w2) as
    (w3 & -> & Hsame3 & Hfiles3 & Hlog3);
    try (rewrite Hfault2, Hfault1; apply Hfault).
  { by rewrite Hgoos2, Hgoos1. }
  { rewrite Hfiles2. apply lookup_insert_eq. }
  fold installed in Hfiles3, Hlog3 |- *. clearbody installed.
  destruct Hsame3 as (Hgoos3 & _ & _ & _ & _ & Hfault3 & _ & _ & _).
  destruct (makeExecutable_ok installed (Data A) w3) as
    (w4 & -> & _ & Hfiles4 & Hlog4).
  { by rewrite Hgoos3, Hgoos2, Hgoos1. }
  { rewrite Hfault3, Hfault2, Hfault1. apply Hfault. }
  { rewrite Hfiles3. apply lookup_insert_eq. }
  cbn [fst snd]. split; [reflexivity|]. split.
  - rewrite Hfiles4, Hfiles3. apply lookup_insert_eq.
  - rewrite Hlog4, Hlog3, Hlog2, Hlog1. rewrite <- !app_assoc. reflexivity.
Qed.

(** X11: off Windows an archive without entries makes the installer fail
    at the relocation stage: [extractFile] hands on the empty path, no file
    has that name, and the installer sends [Error moving actions binary to
    path: ...] with the host as the download left it. *)
Theorem empty_archive_unix_fails_at_relocation
    (dir version filepath content : string) (w w1 : World) :
  downloadFile path_Join dir (actionsURL version (GOOS w) (GOARCH w)) w =
    ((filepath, None), w1) ->
  fault w1 OpReadFile filepath = None ->
  files w1 !! filepath = Some content ->
  zip_entries w1 content = inr [] ->
  is_windows (GOOS w1) = false ->
  files w1 !! EmptyString = None ->
  exists e,
    installActionsBinary path_Join filepath_Base dir version w =
    ([Some (errorString ("Error moving actions binary to path: " +:+ Error e))],
     w1).
Proof.
  intros Hdown Hread Hfile Hzip Hwin Hnone.
  rewrite installActionsBinary_cases, Hdown.
  rewrite (extractFile_nil _ _ _ _ Hread Hfile Hzip).
  rewrite (moveFileToPath_unix_cases _ _ Hwin), Hnone.
  destruct (fault w1 OpReadFile EmptyString) as [e|]; by eexists.
Qed.

(** X12: on Windows an archive without entries goes unnoticed: with the
    install directory already on PATH the installer sends nil although
    nothing was extracted or installed, the host being as the download left
    it. *)
Theorem empty_archive_windows_reports_success
    (dir version filepath content : string) (w w1 : World) :
  downloadFile path_Join dir (actionsURL version (GOOS w) (GOARCH w)) w =
    ((filepath, None), w1) ->
  fault w1 OpReadFile filepath = None ->
  files w1 !! filepath = Some content ->
  zip_entries w1 content = inr [] ->
  is_windows (GOOS w1) = true ->
  Contains (ToLower (PATH w1)) (ToLower "c:\actions") = true ->
  installActionsBinary path_Join filepath_Base dir version w = ([None], w1).
Proof.
  intros Hdown Hread Hfile Hzip Hwin Hpath.
  rewrite installActionsBinary_cases, Hdown.
  rewrite (extractFile_nil _ _ _ _ Hread Hfile Hzip).
  rewrite (moveFileToPath_windows_cases _ _ Hwin), Hpath.
  unfold makeExecutable, bind, ask, ret. by rewrite Hwin.
Qed.

(** X13: every step that [Init] starts sends exactly one value on the
    outcome channel, on every path through it and whatever the host
    answers. *)
Theorem every_step_sends_once
    (i : nat) (step : string -> string -> M (list outcome))
    (dir version : string) (w : World) :
  initSteps path_Join filepath_Base !! i = Some step ->
  length (fst (step dir version w)) = 1%nat.
Proof.
  intros Hi. unfold initSteps in Hi.
  destruct (launchers_send_once dir version w) as [Hredis Hplace].
  destruct (installActionsBinary_sends_once path_Join filepath_Base
              dir version w) as [o Ho].
  destruct i as [|[|[|i]]]; [| | |discriminate Hi]; injection Hi as <-.
  - by rewrite Ho.
  - exact Hplace.
  - exact Hredis.
Qed.

(** *** [Init] as a whole *)

(** X19: [Init] only relays.  An error it returns is the error of
    [getActionsDir], in which case no step was started, or, when the
    directory was made, the one value that one of its three steps sends. *)
Theorem Init_relays_an_error
    (runtimeVersion : string) (schedule : list action) (w : World) (err : error) :
  Init path_Join filepath_Base filepath_FromSlash runtimeVersion schedule w =
    Some (Some err) ->
  match getActionsDir path_Join filepath_FromSlash w with
  | ((_, Some e), _) => err = e
  | ((dir, None), w') =>
      exists i step,
        initSteps path_Join filepath_Base !! i = Some step /\
        fst (step dir runtimeVersion w') = [Some err]
  end.
Proof.
  unfold Init.
  destruct (getActionsDir _ _ w) as [[dir [e|]] w']; [by intros [= ->]|].
  destruct (initSteps_send_once path_Join filepath_Base dir runtimeVersion w')
    as (os & Hlen & Hos).
  rewrite Hos. fold (spawn1 os).
  destruct (exec schedule (spawn1 os)) as [s|] eqn:Hex; [|discriminate].
  destruct (main s) as [|r] eqn:Hm; [discriminate|]. intros [= ->].
  apply (returned_error_sent _ _ _ _ Hex) in Hm.
  apply list_elem_of_lookup_1 in Hm as [i Hi].
  assert (Hprog : ((fun step => fst (step dir runtimeVersion w')) <$>
                     initSteps path_Join filepath_Base) !! i = Some [Some err]).
  { by rewrite Hos, list_lookup_fmap, Hi. }
  apply list_lookup_fmap_Some_1 in Hprog as (step & Hsends & Hstep).
  by exists i, step.
Qed.

(** X20: when [Init] returns nil the install directory was made and each
    of its three steps has sent nil, and nothing else. *)
Theorem Init_nil_means_every_step_nil
    (runtimeVersion : string) (schedule : list action) (w : World) :
  Init path_Join filepath_Base filepath_FromSlash runtimeVersion schedule w =
    Some None ->
  exists dir w',
    getActionsDir path_Join filepath_FromSlash w = ((dir, None), w') /\
    fst (installActionsBinary path_Join filepath_Base dir runtimeVersion w') =
      [None] /\
    fst (runPlacementService dir runtimeVersion w') = [None] /\
    fst (runRedis dir runtimeVersion w') = [None].
Proof.
  unfold Init.
  destruct (getActionsDir _ _ w) as [[dir [e|]] w']; [discriminate|].
  destruct (initSteps_send_once path_Join filepath_Base dir runtimeVersion w')
    as (os & Hlen & Hos).
  rewrite Hos. fold (spawn1 os).
  destruct (exec schedule (spawn1 os)) as [s|] eqn:Hex; [|discriminate].
  destruct (main s) as [|r] eqn:Hm; [discriminate|]. intros [= ->].
  destruct (returned_nil_all_done _ _ _ Hex Hm) as (_ & _ & Hnil).
  exists dir, w'. split; [reflexivity|].
  destruct os as [|o1 [|o2 [|o3 [|o4 os]]]]; try discriminate Hlen.
  apply Forall_cons in Hnil as [<- Hnil].
  apply Forall_cons in Hnil as [<- Hnil].
  apply Forall_cons in Hnil as [<- _].
  unfold initSteps in Hos. cbn [fmap list_fmap] in Hos.
  by injection Hos as -> -> ->.
Qed.

End InstallerStages.

(** *** The stages on the example hosts *)

Lemma getActionsDir_result_witness :
  log (snd (getActionsDir example_Join example_FromSlash world_windows_off_path)) =
  [EvMkdirAll "c:\actions" 448].
Proof.
  destruct (getActionsDir_result example_Join example_FromSlash
              world_windows_off_path) as (_ & _ & Hwin).
  exact (Hwin eq_refl).
Defined.

Lemma downloadFile_stores_under_last_segment_witness :
  fst (fst (downloadFile example_Join "/home/u/.actions"
              (actionsURL "0.3.0" "linux" "amd64") world_unix_fresh)) =
  "/home/u/.actions/actionsrt_linux_amd64.zip".
Proof.
  destruct (downloadFile_stores_under_last_segment example_Join
              "/home/u/.actions"
              "https://actionsreleases.blob.core.windows.net/release/0.3.0"
              "actionsrt_linux_amd64.zip" world_unix_fresh eq_refl)
    as [_ Hpath].
  exact (Hpath eq_refl).
Defined.

Lemma downloadFile_get_failure_witness :
  downloadFile example_Join "/home/u/.actions"
    (actionsURL "0.3.0" "linux" "amd64") world_offline =
  ((EmptyString, Some (ForeignError "dial tcp: i/o timeout")),
   add_event (EvHttpGet (actionsURL "0.3.0" "linux" "amd64")) world_offline).
Proof.
  apply (downloadFile_get_failure example_Join). reflexivity.
Defined.

Lemma moveFileToPath_unix_copies_witness :
  fst (moveFileToPath example_Join example_Base "/home/u/.actions/actionsrt"
         world_with_extracted) = ("/usr/local/bin/actionsrt", None) /\
  files (snd (moveFileToPath example_Join example_Base
                "/home/u/.actions/actionsrt" world_with_extracted))
    !! "/home/u/.actions/actionsrt" = Some "runtime binary".
Proof.
  pose proof (moveFileToPath_unix_copies example_Join example_Base
                "/home/u/.actions/actionsrt" world_with_extracted
                eq_refl eq_refl eq_refl) as Hcopy.
  cbv zeta in Hcopy.
  change (files world_with_extracted !! "/home/u/.actions/actionsrt")
    with (Some "runtime binary") in Hcopy.
  destruct Hcopy as (Hres & _ & Hsrc & _). split; [exact Hres|exact Hsrc].
Defined.

Lemma moveFileToPath_windows_moves_nothing_witness :
  files (snd (moveFileToPath example_Join example_Base "c:\actions/actionsrt.exe"
                world_windows_off_path)) = files world_windows_off_path.
Proof.
  exact (proj1 (moveFileToPath_windows_moves_nothing example_Join example_Base
                  "c:\actions/actionsrt.exe" world_windows_off_path eq_refl)).
Defined.

Lemma moveFileToPath_windows_extends_PATH_witness :
  log (snd (moveFileToPath example_Join example_Base "c:\actions/actionsrt.exe"
              world_windows_off_path)) =
  [EvRunCmd "SETX" ["PATH"; "C:\Windows;c:\actions"]].
Proof.
  exact (proj1 (moveFileToPath_windows_extends_PATH example_Join example_Base
                  "c:\actions/actionsrt.exe" world_windows_off_path
                  eq_refl eq_refl eq_refl)).
Defined.

Lemma installActionsBinary_unix_success_witness :
  fst (installActionsBinary example_Join example_Base "/home/u/.actions" "0.3.0"
         world_unix_fresh) = [None] /\
  files (snd (installActionsBinary example_Join example_Base "/home/u/.actions"
                "0.3.0" world_unix_fresh)) !! "/usr/local/bin/actionsrt" =
    Some "runtime binary".
Proof.
  destruct (installActionsBinary_unix_success example_Join example_Base
              "/home/u/.actions" "0.3.0"
              {| Body := "archive"; BodyErr := None |} entry_A [entry_B]
              world_unix_fresh eq_refl (fun _ _ => eq_refl)
              eq_refl eq_refl eq_refl eq_refl eq_refl) as (Hnil & Hbin & _).
  split; [exact Hnil|exact Hbin].
Defined.

Lemma empty_archive_unix_fails_at_relocation_witness :
  exists e,
    installActionsBinary example_Join example_Base "/home/u/.actions" "0.3.0"
      world_empty_archive =
    ([Some (errorString ("Error moving actions binary to path: " +:+ Error e))],
     world_empty_archive_downloaded).
Proof.
  apply (empty_archive_unix_fails_at_relocation example_Join example_Base
           "/home/u/.actions" "0.3.0"
           "/home/u/.actions/actionsrt_linux_amd64.zip" "archive"
           world_empty_archive world_empty_archive_downloaded).
  - vm_compute; reflexivity.
  - reflexivity.
  - vm_compute; reflexivity.
  - reflexivity.
  - reflexivity.
  - vm_compute; reflexivity.
Defined.

Lemma empty_archive_windows_reports_success_witness :
  installActionsBinary example_Join example_Base "c:\actions" "0.3.0"
    world_windows_on_path = ([None], world_windows_downloaded).
Proof.
  apply (empty_archive_windows_reports_success example_Join example_Base
           "c:\actions" "0.3.0" "c:\actions/actionsrt_windows_amd64.zip"
           "archive" world_windows_on_path world_windows_downloaded).
  - vm_compute; reflexivity.
  - reflexivity.
  - vm_compute; reflexivity.
  - reflexivity.
  - reflexivity.
  - reflexivity.
Defined.

Lemma every_step_sends_once_witness :
  length (fst (runRedis "/home/u/.actions" "0.3.0" world_docker_missing)) = 1%nat.
Proof.
  exact (every_step_sends_once example_Join example_Base 2 runRedis
           "/home/u/.actions" "0.3.0" world_docker_missing eq_refl).
Defined.

Lemma Init_relays_an_error_witness :
  match getActionsDir example_Join example_FromSlash world_docker_missing with
  | ((_, Some e), _) => docker_missing = e
  | ((dir, None), w') =>
      exists i step,
        initSteps example_Join example_Base !! i = Some step /\
        fst (step dir "0.3.0" w') = [Some docker_missing]
  end.
Proof.
  apply (Init_relays_an_error example_Join example_Base example_FromSlash
           "0.3.0" [ASend 1] world_docker_missing docker_missing).
  vm_compute; reflexivity.
Defined.

Lemma Init_nil_means_every_step_nil_witness :
  exists dir w',
    getActionsDir example_Join example_FromSlash world_all_running =
      ((dir, None), w') /\
    fst (installActionsBinary example_Join example_Base dir "0.3.0" w') = [None] /\
    fst (runPlacementService dir "0.3.0" w') = [None] /\
    fst (runRedis dir "0.3.0" w') = [None].
Proof.
  apply (Init_nil_means_every_step_nil example_Join example_Base
           example_FromSlash "0.3.0" run_all_nil world_all_running).
  vm_compute; reflexivity.
Defined.
